(** * Emotion recognition with Wav2Vec2: the orchestration layer

    A shallow embedding of the repository's own logic in
    [emotion_recognition_wav2vec2.py]: the label indexer ([label_list],
    [label_to_id]), the feature cache inside [ppf], the pooling strategy
    ([merged_strategy]), the loss selector inside
    [Wav2Vec2ForSpeechClassification.forward], the padding collator
    ([DataCollatorCTCWithPadding.__call__]), the label maps of the
    configuration, [preprocess_function], the classification head
    ([Wav2Vec2ClassificationHead.forward]), [compute_metrics] and
    [CTCTrainer.training_step].

    Conventions.
    - Python values that the script inspects dynamically are [pyobj].
    - A Python call either returns or raises: [result].  Code that also
      mutates an object or the disk threads that state explicitly and keeps
      the mutation when it raises, as Python does.
    - Tensor elements are exact rationals ([Q]); floating-point rounding,
      infinities and NaN are outside the model.
    - Strings are byte strings.  Python orders [str] by code point and the
      UTF-8 encoding preserves that order, so the byte-wise lexicographic
      order [String.leb] is the order [list.sort] uses on labels. *)

From Stdlib Require Import ZArith QArith Qminmax String List Lia Lqa.
From Stdlib Require Import Structures.OrderedTypeEx.
From stdpp Require Import base gmap strings list sorting.

Local Open Scope Z_scope.

(** ** Python values and outcomes *)

#[warnings="-register-all"]
Inductive pyobj : Type :=
| PyNone
| PyBool (b : bool)
| PyInt (z : Z)
| PyFloat (q : Q)
| PyStr (s : string)
| PyList (l : list pyobj).

(** [isinstance(x, int)]: [bool] is a subclass of [int]. *)
Definition isinstance_int (x : pyobj) : bool :=
  match x with
  | PyInt _ | PyBool _ => true
  | _ => false
  end.

Inductive exn : Type :=
| Exception (msg : string)
| ValueError
| IndexError
| RuntimeError
| FileNotFoundError
| DecodeError (path : string).

Inductive result (A : Type) : Type :=
| Ok (a : A)
| Raise (e : exn).
Arguments Ok {A} a.
Arguments Raise {A} e.

#[global] Instance result_bind : MBind result := λ A B k r,
  match r with
  | Ok a => k a
  | Raise e => Raise e
  end.

#[global] Instance result_ret : MRet result := λ A a, Ok a.

(** ** Label indexer *)

Module LabelIndexer.

(** [train_dataset.unique(output_column)]: the distinct values of the
    column, each kept at its first occurrence. *)
Fixpoint unique (column : list string) : list string :=
  match column with
  | [] => []
  | x :: rest => x :: filter (λ y, y ≠ x) (unique rest)
  end.

(** The order of [str]: lexicographic on code points. *)
Definition str_le (a b : string) : Prop := String.leb a b = true.

#[global] Instance str_le_dec a b : Decision (str_le a b) :=
  decide (String.leb a b = true).

(** Lines 48-49: [label_list = train_dataset.unique(output_column)] followed
    by [label_list.sort()], the ascending merge sort of the list. *)
Definition label_list (column : list string) : list string :=
  merge_sort str_le (unique column).

(** [label in label_list] *)
Definition contains (label : string) (l : list string) : bool :=
  existsb (String.eqb label) l.

(** [label_list.index(label)]: position of the first occurrence, or
    [ValueError]. *)
Fixpoint index (label : string) (l : list string) : result Z :=
  match l with
  | [] => Raise ValueError
  | y :: rest =>
      if String.eqb y label then Ok 0
      else i ← index label rest; Ok (i + 1)
  end.

(** Lines 97-100. *)
Definition label_to_id (label : string) (label_list : list string)
  : result pyobj :=
  if (0 <? Z.of_nat (length label_list)) then
    if contains label label_list then
      i ← index label label_list; Ok (PyInt i)
    else Ok (PyInt (-1))
  else Ok (PyStr label).

End LabelIndexer.

(** ** Feature cache *)

Module FeatureCache.

(** A decoded, resampled, single-channel waveform. *)
Definition waveform : Type := list Q.

(** What the script touches outside the interpreter: the [.npy] files under
    [./features] (the directory exists) and, as a log, the paths handed to
    [torchaudio.load], oldest first. *)
Record world : Type := World {
  npy_files : gmap string (list waveform);
  loads : list string
}.

(** A call that may raise and may change the world; the change stays when it
    raises. *)
Definition io (A : Type) : Type := world → result A * world.

#[global] Instance io_ret : MRet io := λ A a w, (Ok a, w).

#[global] Instance io_bind : MBind io := λ A B k m w,
  match m w with
  | (Ok a, w') => k a w'
  | (Raise e, w') => (Raise e, w')
  end.

(** A call that leaves the world alone. *)
Definition lift {A} (r : result A) : io A := λ w, (r, w).

(** The dataset columns [ppf] reads. *)
Record examples : Type := Examples {
  path : list string;
  emotion : list string
}.

(** [processor(...)]'s result with the [labels] entry [ppf] adds. *)
Record BatchFeature (feature : Type) : Type := MkBatchFeature {
  input_values : list feature;
  labels : list pyobj
}.
Arguments MkBatchFeature {feature}.
Arguments input_values {feature}.
Arguments labels {feature}.

Section Ppf.

(** [torchaudio.load] of a path, resampled to the target rate, squeezed:
    what lines 92-94 compute from the audio file, or the error they raise.
    Audio files are only read. *)
Variable decode_resample : string → result waveform.

(** The feature extractor and the repository's [nested_array_catcher]
    module (not part of this file). *)
Variable feature : Type.
Variable processor : list waveform → result (list feature).
Variable nested_array_catcher : feature → result feature.

(** The global [label_list] of line 48. *)
Variable label_list : list string.

(** Lines 91-95. *)
Definition speech_file_to_array_fn (path : string) : io waveform :=
  λ w, (decode_resample path, World (npy_files w) (loads w ++ [path])).

(** [[speech_file_to_array_fn(path) for path in paths]] *)
Fixpoint speech_list_of (paths : list string) : io (list waveform) :=
  match paths with
  | [] => mret []
  | p :: rest =>
      a ← speech_file_to_array_fn p;
      l ← speech_list_of rest;
      mret (a :: l)
  end.

(** [f'./features/speech_list_{split}.npy'] *)
Definition filepath_of (split : string) : string :=
  "./features/speech_list_" +:+ split +:+ ".npy".

(** [os.path.exists(filepath)], for a path under [./features]. *)
Definition os_path_exists (filepath : string) : io bool :=
  λ w, (Ok (bool_decide (is_Some (npy_files w !! filepath))), w).

(** [list(np.load(f, allow_pickle=True))]: the sequence [np.save] wrote,
    element for element. *)
Definition np_load (filepath : string) : io (list waveform) :=
  λ w, (match npy_files w !! filepath with
        | Some l => Ok l
        | None => Raise FileNotFoundError
        end, w).

(** [np.save(filepath, speech_list, allow_pickle=True)] *)
Definition np_save (filepath : string) (speech_list : list waveform)
  : io unit :=
  λ w, (Ok tt, World (<[filepath := speech_list]> (npy_files w)) (loads w)).

(** Lines 141-152 of [ppf]: the value of [speech_list]. *)
Definition ppf_speech_list (ex : examples) (split : string)
  : io (list waveform) :=
  let filepath := filepath_of split in
  hit ← os_path_exists filepath;
  if (hit : bool) then
    np_load filepath
  else
    speech_list ← speech_list_of (path ex);
    _ ← np_save filepath speech_list;
    mret speech_list.

(** Lines 140-169: the cached or decoded waveforms, the label ids of the
    [emotion] column, the extracted features, and the pass of every feature
    through [nested_array_catcher], in that order. *)
Definition ppf (ex : examples) (split : string)
  : io (BatchFeature feature) :=
  speech_list ← ppf_speech_list ex split;
  lift (target_list ← mapM (λ label, LabelIndexer.label_to_id label label_list)
                         (emotion ex);
        values ← processor speech_list;
        values' ← mapM nested_array_catcher values;
        Ok (MkBatchFeature values' target_list)).

End Ppf.

End FeatureCache.

(** ** Tensors and the reductions the model calls *)

Module Torch.

Inductive dtype : Type :=
| float16 | bfloat16 | float32 | float64 | complex64 | complex128
| uint8 | int8 | int16 | int32 | int64 | bool.

(** The aliases the script uses. *)
Definition long : dtype := int64.
Definition int : dtype := int32.
Definition float : dtype := float32.

Definition dtype_eqb (a b : dtype) : Datatypes.bool :=
  match a, b with
  | float16, float16 | bfloat16, bfloat16 | float32, float32
  | float64, float64 | complex64, complex64 | complex128, complex128
  | uint8, uint8 | int8, int8 | int16, int16 | int32, int32
  | int64, int64 | bool, bool => true
  | _, _ => false
  end.

(** A batch of per-frame hidden states: [data3 !! b !! t !! j] is component
    [j] of frame [t] of utterance [b]; [dims3] is [(batch, time, hidden)]. *)
Record Tensor3 : Type := MkTensor3 {
  dims3 : nat * nat * nat;
  data3 : list (list (list Q))
}.

Definition dim_batch (h : Tensor3) : nat := fst (fst (dims3 h)).
Definition dim_time (h : Tensor3) : nat := snd (fst (dims3 h)).
Definition dim_hidden (h : Tensor3) : nat := snd (dims3 h).

(** The data agrees with the dimensions. *)
Definition well_shaped (h : Tensor3) : Prop :=
  length (data3 h) = dim_batch h ∧
  Forall (λ frames, length frames = dim_time h ∧
                    Forall (λ frame : list Q, length frame = dim_hidden h)
                      frames)
    (data3 h).

(** One row per utterance. *)
Definition Tensor2 : Type := list (list Q).

Definition vadd (x y : list Q) : list Q := zip_with Qplus x y.
Definition vmax (x y : list Q) : list Q := zip_with Qmax x y.

(** [torch.sum(h, dim=1)] *)
Definition sum_dim1 (h : Tensor3) : Tensor2 :=
  map (λ frames, fold_left vadd frames (repeat 0%Q (dim_hidden h)))
    (data3 h).

(** [torch.mean(h, dim=1)]: the sum over the time axis divided by its
    length.  Over an empty time axis torch yields NaN, which [Q] does not
    have; the value computed here for that case is not one torch
    returns. *)
Definition mean_dim1 (h : Tensor3) : Tensor2 :=
  map (map (λ s, (s / inject_Z (Z.of_nat (dim_time h)))%Q)) (sum_dim1 h).

(** [torch.max(h, dim=1)[0]]: raises over an empty time axis. *)
Definition max_dim1_values (h : Tensor3) : result Tensor2 :=
  if Nat.eqb (dim_time h) 0 then Raise IndexError
  else Ok (map (λ frames,
                  match frames with
                  | [] => []
                  | f :: rest => fold_left vmax rest f
                  end)
             (data3 h)).

(** A label tensor: element type, shape and the elements in row-major
    order. *)
Record Labels : Type := MkLabels {
  l_dtype : dtype;
  l_shape : list nat;
  l_values : list Q
}.

(** [labels.view(-1)] *)
Definition view_flat (l : Labels) : Labels :=
  MkLabels (l_dtype l) [length (l_values l)] (l_values l).

Fixpoint chunks (fuel n : nat) (l : list Q) : list (list Q) :=
  match fuel with
  | O => []
  | S fuel' =>
      match l with
      | [] => []
      | _ => take n l :: chunks fuel' n (drop n l)
      end
  end.

(** [t.view(-1, n)] on a two-dimensional tensor: rows of width [n] over the
    same elements; raises unless [n] is positive and divides their number. *)
Definition view_rows (t : Tensor2) (n : Z) : result Tensor2 :=
  let flat := concat t in
  if (n <=? 0)%Z then Raise RuntimeError
  else if (Z.of_nat (length flat) mod n =? 0)%Z
       then Ok (chunks (length flat) (Z.to_nat n) flat)
       else Raise RuntimeError.

End Torch.

(** ** The classification model *)

Module Model.
Import Torch.

(** The fields of the shared configuration object that the model reads or
    writes. *)
Record PretrainedConfig : Type := MkConfig {
  num_labels : Z;
  pooling_mode : string;
  problem_type : option string;
  use_return_dict : Datatypes.bool
}.

Definition set_problem_type (c : PretrainedConfig) (pt : string)
  : PretrainedConfig :=
  MkConfig (num_labels c) (pooling_mode c) (Some pt) (use_return_dict c).

(** The encoder's result: [outputs[0]], [outputs[2:]] (read when a tuple is
    returned) and the named fields read when a [ModelOutput] is returned. *)
Record BaseModelOutput : Type := MkBaseModelOutput {
  last_hidden_state : Tensor3;
  outputs_from_2 : list Tensor3;
  hidden_states : option (list Tensor3);
  attentions : option (list Tensor3)
}.

(** Lines 202-207. *)
Record SpeechClassifierOutput : Type := MkSpeechClassifierOutput {
  out_loss : option Q;
  out_logits : Tensor2;
  out_hidden_states : option (list Tensor3);
  out_attentions : option (list Tensor3)
}.

Inductive tuple_item : Type :=
| ItemLoss (loss : Q)
| ItemLogits (logits : Tensor2)
| ItemExtra (t : Tensor3).

(** What [forward] returns: a tuple when [return_dict] is false, a
    [SpeechClassifierOutput] otherwise. *)
Inductive ForwardOutput : Type :=
| OutTuple (items : list tuple_item)
| OutDict (o : SpeechClassifierOutput).

(** The loss carried by an output: the [loss] field, or the leading element
    of the tuple when the tuple has one. *)
Definition loss_of (o : ForwardOutput) : option Q :=
  match o with
  | OutDict d => out_loss d
  | OutTuple (ItemLoss l :: _) => Some l
  | OutTuple _ => None
  end.

Definition logits_of (o : ForwardOutput) : option Tensor2 :=
  match o with
  | OutDict d => Some (out_logits d)
  | OutTuple (ItemLoss _ :: ItemLogits t :: _) => Some t
  | OutTuple (ItemLogits t :: _) => Some t
  | OutTuple _ => None
  end.

(** The instance attributes set by [__init__]; [self_config] is the shared
    configuration object, which [forward] mutates. *)
Record Wav2Vec2ForSpeechClassification : Type := MkModel {
  self_num_labels : Z;
  self_pooling_mode : string;
  self_config : PretrainedConfig
}.

(** Lines 239-243. *)
Definition init (config : PretrainedConfig) : Wav2Vec2ForSpeechClassification :=
  MkModel (num_labels config) (pooling_mode config) config.

Definition with_config (self : Wav2Vec2ForSpeechClassification)
  (c : PretrainedConfig) : Wav2Vec2ForSpeechClassification :=
  MkModel (self_num_labels self) (self_pooling_mode self) c.

(** The arguments of [forward]. *)
Record ForwardArgs : Type := MkForwardArgs {
  input_values : list (list Q);
  attention_mask : option (list (list Z));
  output_attentions : option Datatypes.bool;
  output_hidden_states : option Datatypes.bool;
  return_dict : option Datatypes.bool;
  labels : option Labels
}.

Definition pooling_error : string :=
  "The pooling method hasn't been defined! Your pooling mode must be one of these ['mean', 'sum', 'max']".

(** Lines 253-268. *)
Definition merged_strategy (hidden_states : Tensor3) (mode : string)
  : result Tensor2 :=
  if String.eqb mode "mean" then Ok (mean_dim1 hidden_states)
  else if String.eqb mode "sum" then Ok (sum_dim1 hidden_states)
  else if String.eqb mode "max" then max_dim1_values hidden_states
  else Raise (Exception pooling_error).

(** Lines 293-299: the problem type written into the configuration when
    none is set. *)
Definition infer_problem_type (num_labels : Z) (labels_dtype : dtype)
  : string :=
  if (num_labels =? 1)%Z then "regression"
  else if ((1 <? num_labels)%Z &&
           (dtype_eqb labels_dtype long || dtype_eqb labels_dtype int))%bool
       then "single_label_classification"
       else "multi_label_classification".

Section Forward.

(** The pretrained encoder, the classification head (weights fixed) and
    torch's loss modules. *)
Variable wav2vec2 :
  list (list Q) → option (list (list Z)) → option Datatypes.bool →
  option Datatypes.bool → Datatypes.bool → result BaseModelOutput.
Variable classifier : Tensor2 → Tensor2.
Variable MSELoss : Tensor2 → Labels → result Q.
Variable CrossEntropyLoss : Tensor2 → Labels → result Q.
Variable BCEWithLogitsLoss : Tensor2 → Labels → result Q.

(** Lines 301-309. *)
Definition compute_loss (self_num_labels : Z) (pt : option string)
  (logits : Tensor2) (labels : Labels) : result (option Q) :=
  match pt with
  | Some pt =>
      if String.eqb pt "regression" then
        v ← view_rows logits self_num_labels;
        l ← MSELoss v labels;
        Ok (Some l)
      else if String.eqb pt "single_label_classification" then
        v ← view_rows logits self_num_labels;
        l ← CrossEntropyLoss v (view_flat labels);
        Ok (Some l)
      else if String.eqb pt "multi_label_classification" then
        l ← BCEWithLogitsLoss logits labels;
        Ok (Some l)
      else Ok None
  | None => Ok None
  end.

(** Lines 311-320. *)
Definition package (return_dict : Datatypes.bool) (loss : option Q)
  (logits : Tensor2) (outputs : BaseModelOutput) : ForwardOutput :=
  if negb return_dict then
    let output := ItemLogits logits :: map ItemExtra (outputs_from_2 outputs) in
    OutTuple (match loss with
              | Some l => ItemLoss l :: output
              | None => output
              end)
  else
    OutDict (MkSpeechClassifierOutput loss logits
               (hidden_states outputs) (attentions outputs)).

(** Lines 270-320.  The second component is the model after the call:
    the write to [config.problem_type] stays when a later line raises. *)
Definition forward (self : Wav2Vec2ForSpeechClassification)
  (a : ForwardArgs) : result ForwardOutput * Wav2Vec2ForSpeechClassification :=
  let return_dict :=
    match return_dict a with
    | Some b => b
    | None => use_return_dict (self_config self)
    end in
  match wav2vec2 (input_values a) (attention_mask a) (output_attentions a)
          (output_hidden_states a) return_dict with
  | Raise e => (Raise e, self)
  | Ok outputs =>
      match merged_strategy (last_hidden_state outputs)
              (self_pooling_mode self) with
      | Raise e => (Raise e, self)
      | Ok pooled =>
          let logits := classifier pooled in
          match labels a with
          | None => (Ok (package return_dict None logits outputs), self)
          | Some labels =>
              let self' :=
                match problem_type (self_config self) with
                | None =>
                    with_config self
                      (set_problem_type (self_config self)
                         (infer_problem_type (self_num_labels self)
                            (l_dtype labels)))
                | Some _ => self
                end in
              match compute_loss (self_num_labels self')
                      (problem_type (self_config self')) logits labels with
              | Raise e => (Raise e, self')
              | Ok loss =>
                  (Ok (package return_dict loss logits outputs), self')
              end
          end
      end
  end.

(** A run: the forward passes made on one model, in order; each sees the
    configuration the previous ones left.  The result lists, for every
    pass, its outcome and the model after it. *)
Fixpoint run (self : Wav2Vec2ForSpeechClassification)
  (passes : list ForwardArgs)
  : list (result ForwardOutput * Wav2Vec2ForSpeechClassification) :=
  match passes with
  | [] => []
  | a :: rest =>
      let '(r, self') := forward self a in
      (r, self') :: run self' rest
  end.

End Forward.

End Model.

(** ** The padding collator *)

Module Collator.
Import Torch.

(** One dataset row as the trainer hands it to the collator. *)
Record Feature : Type := MkFeature {
  f_input_values : list Q;
  f_labels : pyobj
}.

(** Lines 378-383 (the fields the call passes on). *)
Record DataCollatorCTCWithPadding : Type := MkCollator {
  padding : Datatypes.bool;
  max_length : option Z;
  pad_to_multiple_of : option Z
}.

Record Batch : Type := MkBatch {
  b_input_values : list (list Q);
  b_attention_mask : list (list Z);
  b_labels : Labels
}.

Section Call.

(** [processor.pad(..., return_tensors="pt")]: padded inputs and their
    attention mask. *)
Variable processor_pad :
  list (list Q) → Datatypes.bool → option Z → option Z →
  result (list (list Q) * list (list Z)).

(** The shape and elements [torch.tensor(data, dtype=d)] builds from
    Python data, or the error it raises; the tensor has element type
    [d]. *)
Variable tensor_data : list pyobj → dtype → result (list nat * list Q).

Definition torch_tensor (data : list pyobj) (d : dtype) : result Labels :=
  '(shape, values) ← tensor_data data d;
  Ok (MkLabels d shape values).

(** Line 389. *)
Definition d_type_of (label_features : list pyobj) : result dtype :=
  match label_features with
  | [] => Raise IndexError
  | first :: _ => Ok (if isinstance_int first then long else float)
  end.

(** Lines 385-401. *)
Definition call (self : DataCollatorCTCWithPadding)
  (features : list Feature) : result Batch :=
  let input_features := map f_input_values features in
  let label_features := map f_labels features in
  d_type ← d_type_of label_features;
  '(values, mask) ← processor_pad input_features (padding self)
                      (max_length self) (pad_to_multiple_of self);
  labels ← torch_tensor label_features d_type;
  Ok (MkBatch values mask labels).

End Call.

End Collator.

(** ** Vocabulary of the statements and the inputs of the examples *)

(** Element [b][t][j] of a batch of hidden states and element [b][j] of a
    pooled batch. *)
Definition at3 (h : Torch.Tensor3) (b t j : nat) : Q :=
  nth j (nth t (nth b (Torch.data3 h) []) []) 0%Q.

Definition at2 (r : Torch.Tensor2) (b j : nat) : Q :=
  nth j (nth b r []) 0%Q.

(** The sum of [f 0], ..., [f (n - 1)]. *)
Definition sum_over (n : nat) (f : nat → Q) : Q :=
  fold_right Qplus 0%Q (map f (seq 0 n)).

(** Two pooled batches that agree element by element as rationals. *)
Definition tensor2_equiv (r1 r2 : Torch.Tensor2) : Prop :=
  Forall2 (Forall2 Qeq) r1 r2.

(** The hidden states of one utterance of three frames of width two. *)
Definition hidden_example : Torch.Tensor3 :=
  Torch.MkTensor3 (1, 3, 2)%nat [[[1; 2]; [3; 4]; [5; 6]]]%Q.

(** Component [j] of each frame, in frame order. *)
Definition series (j : nat) (frames : list (list Q)) : list Q :=
  map (λ frame, nth j frame 0%Q) frames.

(** A world whose cache for the split [train] holds one waveform. *)
Definition stale_world : FeatureCache.world :=
  FeatureCache.World
    {[ FeatureCache.filepath_of "train" := [[1%Q]] ]} [].

(** An encoder that returns [hidden_example], a head that gives [n] zero
    logits per utterance, and losses that only tell the three modules
    apart: stand-ins for evaluating [forward] on concrete inputs. *)
Definition example_outputs : Model.BaseModelOutput :=
  Model.MkBaseModelOutput hidden_example [] None None.

Definition example_wav2vec2
  (_ : list (list Q)) (_ : option (list (list Z)))
  (_ _ : option Datatypes.bool) (_ : Datatypes.bool)
  : result Model.BaseModelOutput :=
  Ok example_outputs.

Definition example_classifier (n : nat) (pooled : Torch.Tensor2)
  : Torch.Tensor2 :=
  map (λ _, repeat 0%Q n) pooled.

Definition example_MSELoss (_ : Torch.Tensor2) (_ : Torch.Labels) : result Q :=
  Ok 1%Q.
Definition example_CrossEntropyLoss (_ : Torch.Tensor2) (_ : Torch.Labels)
  : result Q := Ok 2%Q.
Definition example_BCEWithLogitsLoss (_ : Torch.Tensor2) (_ : Torch.Labels)
  : result Q := Ok 3%Q.

(** A model with four classes, mean pooling and no problem type set. *)
Definition example_model : Model.Wav2Vec2ForSpeechClassification :=
  Model.init (Model.MkConfig 4 "mean" None true).

(** A forward pass on one utterance with the given labels. *)
Definition example_pass (labels : option Torch.Labels) : Model.ForwardArgs :=
  Model.MkForwardArgs [[0%Q]] None None None None labels.

(** The value [forward] gives [return_dict] when the caller passes
    none. *)
Definition effective_return_dict (self : Model.Wav2Vec2ForSpeechClassification)
  (a : Model.ForwardArgs) : Datatypes.bool :=
  match Model.return_dict a with
  | Some b => b
  | None => Model.use_return_dict (Model.self_config self)
  end.

(** The pass reaches the loss selector: the encoder returns [outputs] and
    pooling its last hidden state returns [pooled]. *)
Definition pooled_by
  (wav2vec2 : list (list Q) → option (list (list Z)) → option Datatypes.bool →
              option Datatypes.bool → Datatypes.bool →
              result Model.BaseModelOutput)
  (self : Model.Wav2Vec2ForSpeechClassification) (a : Model.ForwardArgs)
  (outputs : Model.BaseModelOutput) (pooled : Torch.Tensor2) : Prop :=
  wav2vec2 (Model.input_values a) (Model.attention_mask a)
    (Model.output_attentions a) (Model.output_hidden_states a)
    (effective_return_dict self a) = Ok outputs ∧
  Model.merged_strategy (Model.last_hidden_state outputs)
    (Model.self_pooling_mode self) = Ok pooled.

(** The model after the problem type [pt] is stored in its
    configuration. *)
Definition storing (self : Model.Wav2Vec2ForSpeechClassification)
  (pt : string) : Model.Wav2Vec2ForSpeechClassification :=
  Model.with_config self (Model.set_problem_type (Model.self_config self) pt).

(** Labels for the one utterance of [hidden_example]: class 2, stored with
    the given element type. *)
Definition example_labels (d : Torch.dtype) : Torch.Labels :=
  Torch.MkLabels d [1%nat] [2%Q].

(** The forward pass of the examples, with the stand-ins above. *)
Definition example_forward (self : Model.Wav2Vec2ForSpeechClassification)
  (a : Model.ForwardArgs)
  : result Model.ForwardOutput * Model.Wav2Vec2ForSpeechClassification :=
  Model.forward example_wav2vec2 (example_classifier 4) example_MSELoss
    example_CrossEntropyLoss example_BCEWithLogitsLoss self a.

(** A padder for inputs that already share one length, and the conversion
    of a list of Python scalars to tensor elements (integer element types
    truncate towards zero); stand-ins for evaluating the collator. *)
Definition example_pad (inputs : list (list Q)) (_ : Datatypes.bool)
  (_ _ : option Z) : result (list (list Q) * list (list Z)) :=
  Ok (inputs, map (map (λ _, 1%Z)) inputs).

Definition is_integer_dtype (d : Torch.dtype) : Datatypes.bool :=
  match d with
  | Torch.uint8 | Torch.int8 | Torch.int16 | Torch.int32 | Torch.int64 => true
  | _ => false
  end.

Definition example_scalar (d : Torch.dtype) (x : pyobj) : result Q :=
  match x with
  | PyInt z => Ok (inject_Z z)
  | PyBool b => Ok (if b then 1%Q else 0%Q)
  | PyFloat q =>
      Ok (if is_integer_dtype d
          then inject_Z (Z.quot (Qnum q) (Z.pos (Qden q)))
          else q)
  | _ => Raise ValueError
  end.

Fixpoint example_scalars (d : Torch.dtype) (data : list pyobj)
  : result (list Q) :=
  match data with
  | [] => Ok []
  | x :: rest =>
      v ← example_scalar d x;
      vs ← example_scalars d rest;
      Ok (v :: vs)
  end.

Definition example_tensor_data (data : list pyobj) (d : Torch.dtype)
  : result (list nat * list Q) :=
  vs ← example_scalars d data;
  Ok ([length data], vs).

Definition example_collator : Collator.DataCollatorCTCWithPadding :=
  Collator.MkCollator true None None.

(** ** Preprocessing without the cache *)

Module Preprocess.
Import FeatureCache.

Section PreprocessFunction.

Variable decode_resample : string → result waveform.
Variable feature : Type.
Variable processor : list waveform → result (list feature).
Variable nested_array_catcher : feature → result feature.
Variable label_list : list string.


End PreprocessFunction.

End Preprocess.

(** A decoder for the examples: it fails on [b.mp3] and returns a
    one-sample waveform for every other path. *)
Definition example_decoder (p : string) : result FeatureCache.waveform :=
  if String.eqb p "b.mp3" then Raise (DecodeError p) else Ok [0%Q].

(** A model whose pooling mode is not one the model defines. *)
Definition median_model : Model.Wav2Vec2ForSpeechClassification :=
  Model.init (Model.MkConfig 4 "median" None true).

(** A model configured with a problem type the loss selector does not
    know. *)
Definition ranking_model : Model.Wav2Vec2ForSpeechClassification :=
  Model.init (Model.MkConfig 4 "mean" (Some "ranking") true).

(** ** The label maps of the configuration *)

Module Script.

(** [enumerate(label_list)] *)
Definition enumerate {A} (l : list A) : list (Z * A) :=
  imap (λ i x, (Z.of_nat i, x)) l.

(** Line 50. *)
Definition num_labels (label_list : list string) : Z :=
  Z.of_nat (length label_list).

(** Line 67: [{label: i for i, label in enumerate(label_list)}]; a later
    entry for a key replaces an earlier one. *)
Definition label2id (label_list : list string) : gmap string Z :=
  fold_left (λ d '(i, label), <[label := i]> d) (enumerate label_list) ∅.

(** Line 68: [{i: label for i, label in enumerate(label_list)}]. *)
Definition id2label (label_list : list string) : gmap Z string :=
  fold_left (λ d '(i, label), <[i := label]> d) (enumerate label_list) ∅.

End Script.

(** ** Evaluation metrics *)

Module Metrics.

(** A Python float that may be NaN, which is what numpy's mean of no
    element is. *)
Inductive metric : Type :=
| Value (q : Q)
| NaN.

(** A two-dimensional array with its shape. *)
Record Array2 : Type := MkArray2 {
  nrows : nat;
  ncols : nat;
  rows : list (list Q)
}.

Definition well_formed (a : Array2) : Prop :=
  length (rows a) = nrows a ∧
  Forall (λ row : list Q, length row = ncols a) (rows a).

(** [p.predictions] is an array or a tuple of arrays; [p.label_ids] is a
    one-dimensional array. *)
Inductive Predictions : Type :=
| PredArray (a : Array2)
| PredTuple (items : list Array2).

Record EvalPrediction : Type := MkEvalPrediction {
  predictions : Predictions;
  label_ids : list Q
}.

(** Line 407. *)
Definition is_regression : bool := false.

(** The scan of [np.argmax] over one row: the position of the first largest
    element. *)
Fixpoint argmax_from (best_i : nat) (best : Q) (i : nat) (row : list Q)
  : nat :=
  match row with
  | [] => best_i
  | x :: rest =>
      match (best ?= x)%Q with
      | Lt => argmax_from i x (S i) rest
      | _ => argmax_from best_i best (S i) rest
      end
  end.

Definition argmax_row (row : list Q) : result nat :=
  match row with
  | [] => Raise ValueError
  | x :: rest => Ok (argmax_from 0 x 1 rest)
  end.

(** [np.argmax(preds, axis=1)]: raises when the rows have no element. *)
Definition argmax_axis1 (a : Array2) : result (list nat) :=
  if Nat.eqb (ncols a) 0 then Raise ValueError
  else mapM argmax_row (rows a).

(** An elementwise operation on two one-dimensional arrays, with numpy's
    broadcasting: equal lengths, or one of the two of length one. *)
Definition broadcast {A B C} (f : A → B → C) (x : list A) (y : list B)
  : result (list C) :=
  if Nat.eqb (length x) (length y) then Ok (zip_with f x y)
  else match x, y with
       | [a], _ => Ok (map (f a) y)
       | _, [b] => Ok (map (λ a, f a b) x)
       | _, _ => Raise ValueError
       end.

(** The elements of [np.squeeze(preds) - label_ids], in row-major order.
    An array of one column squeezes to one dimension (to a scalar when it
    also has one row) and meets the labels element by element; any other
    array meets them along its last axis. *)
Definition squeeze_sub (a : Array2) (labels : list Q) : result (list Q) :=
  if Nat.eqb (ncols a) 1 then broadcast Qminus (concat (rows a)) labels
  else if Nat.eqb (ncols a) (length labels)
       then Ok (concat (map (λ row, zip_with Qminus row labels) (rows a)))
       else match labels with
            | [b] => Ok (concat (map (map (λ x, (x - b)%Q)) (rows a)))
            | _ => Raise ValueError
            end.

(** [array.mean().item()] *)
Definition mean (l : list Q) : metric :=
  match l with
  | [] => NaN
  | _ => Value (fold_right Qplus 0%Q l / inject_Z (Z.of_nat (length l)))
  end.

(** The 0/1 entry of [(preds == label_ids).astype(np.float32)]. *)
Definition hit (pred : nat) (label : Q) : Q :=
  if Qeq_bool (inject_Z (Z.of_nat pred)) label then 1%Q else 0%Q.

(** Lines 413-420, with the global [is_regression] as an argument.  The
    result is the one entry of the returned dictionary. *)
Definition compute_metrics (is_regression : bool) (p : EvalPrediction)
  : result (string * metric) :=
  preds ← match predictions p with
          | PredTuple [] => Raise IndexError
          | PredTuple (a :: _) => Ok a
          | PredArray a => Ok a
          end;
  if is_regression then
    diffs ← squeeze_sub preds (label_ids p);
    Ok ("mse", mean (map (λ d, (d * d)%Q) diffs))
  else
    classes ← argmax_axis1 preds;
    hits ← broadcast hit classes (label_ids p);
    Ok ("accuracy", mean hits).

End Metrics.

(** Logits of two utterances over three classes, and of two utterances for
    one regression output. *)
Definition example_logits : Metrics.Array2 :=
  Metrics.MkArray2 2 3 [[0; 1; 0]; [5; 1; 2]]%Q.

Definition example_outputs_regression : Metrics.Array2 :=
  Metrics.MkArray2 2 1 [[1]; [3]]%Q.

(** ** The classification head *)

Module Head.
Import Torch.

(** [nn.Linear(in_features, out_features)]: [weight] has one row of
    [in_features] coefficients per output, [bias] one entry per output. *)
Record Linear : Type := MkLinear {
  in_features : nat;
  out_features : nat;
  weight : list (list Q);
  bias : list Q
}.

Definition linear_shaped (l : Linear) : Prop :=
  length (weight l) = out_features l ∧
  Forall (λ w : list Q, length w = in_features l) (weight l) ∧
  length (bias l) = out_features l.

Definition dot (x y : list Q) : Q :=
  fold_right Qplus 0%Q (zip_with Qmult x y).

(** One row through a linear layer; raises on a row of another width. *)
Definition linear_row (l : Linear) (x : list Q) : result (list Q) :=
  if Nat.eqb (length x) (in_features l)
  then Ok (zip_with Qplus (map (dot x) (weight l)) (bias l))
  else Raise RuntimeError.

(** A linear layer applied to a batch, row by row. *)
Definition linear (l : Linear) (x : Tensor2) : result Tensor2 :=
  mapM (linear_row l) x.

(** Lines 222-226: the two linear layers of the head. *)
Record Wav2Vec2ClassificationHead : Type := MkHead {
  dense : Linear;
  out_proj : Linear
}.

Section HeadForward.

(** The two applications of the dropout module (each draws its own mask
    in training and is the identity in evaluation) and the hyperbolic
    tangent. *)
Variable dropout1 dropout2 : Tensor2 → Tensor2.
Variable tanh : Q → Q.

(** Lines 228-235. *)
Definition forward (self : Wav2Vec2ClassificationHead) (features : Tensor2)
  : result Tensor2 :=
  let x := features in
  let x := dropout1 x in
  x ← linear (dense self) x;
  let x := map (map tanh) x in
  let x := dropout2 x in
  linear (out_proj self) x.

End HeadForward.

End Head.

(** ** The training step *)

Module Trainer.

(** The four ways the step back-propagates. *)
Inductive backward_kind : Type :=
| ScalerBackward
| ApexBackward
| DeepspeedBackward
| PlainBackward.

(** What a training step does to the model and the optimiser state, in
    order. *)
Inductive event : Type :=
| ModelTrain
| PrepareInputs
| ComputeLoss (autocast : bool)
| Backward (how : backward_kind) (loss : Q).

(** The trainer fields the step reads; [deepspeed] is the truth value of
    [self.deepspeed]. *)
Record CTCTrainer : Type := MkTrainer {
  use_amp : bool;
  use_apex : bool;
  deepspeed : bool;
  gradient_accumulation_steps : Z
}.

Section TrainingStep.

Variable Inputs : Type.
Variable prepare_inputs : Inputs → Inputs.

(** [self.compute_loss(model, inputs)], inside [autocast()] or not. *)
Variable compute_loss : bool → Inputs → result Q.

(** Lines 488-529 (the [training_step] override). *)
Definition training_step (self : CTCTrainer) (inputs : Inputs)
  : result Q * list event :=
  let inputs := prepare_inputs inputs in
  match compute_loss (use_amp self) inputs with
  | Raise e => (Raise e, [ModelTrain; PrepareInputs; ComputeLoss (use_amp self)])
  | Ok loss =>
      let loss :=
        if (1 <? gradient_accumulation_steps self)%Z
        then (loss / inject_Z (gradient_accumulation_steps self))%Q
        else loss in
      let how :=
        if use_amp self then ScalerBackward
        else if use_apex self then ApexBackward
        else if deepspeed self then DeepspeedBackward
        else PlainBackward in
      (Ok loss,
       [ModelTrain; PrepareInputs; ComputeLoss (use_amp self);
        Backward how loss])
  end.

End TrainingStep.

(** The losses a list of events back-propagates. *)
Definition backward_losses (log : list event) : list Q :=
  omap (λ ev, match ev with Backward _ l => Some l | _ => None end) log.

End Trainer.

(** A function on batches that keeps the number of rows and the width of
    the rows, as dropout does. *)
Definition shape_preserving (f : Torch.Tensor2 → Torch.Tensor2) : Prop :=
  ∀ x : Torch.Tensor2,
    length (f x) = length x ∧
    ∀ w : nat, Forall (λ row : list Q, length row = w) x →
               Forall (λ row : list Q, length row = w) (f x).

(** A head over hidden width two with three classes. *)
Definition example_head : Head.Wav2Vec2ClassificationHead :=
  Head.MkHead
    (Head.MkLinear 2 2 [[1; 0]; [0; 1]]%Q [0; 0]%Q)
    (Head.MkLinear 2 3 [[1; 0]; [0; 1]; [1; 1]]%Q [0; 0; 1]%Q).

(** A trainer that accumulates gradients over two steps with native mixed
    precision, and a loss that is the input itself. *)
Definition example_trainer : Trainer.CTCTrainer :=
  Trainer.MkTrainer true false false 2.

Definition example_compute_loss (_ : bool) (inputs : Q) : result Q :=
  Ok inputs.


(** * Properties *)

(** ** Label indexer *)

Section LabelIndexerFacts.
Import LabelIndexer.

#[local] Instance str_le_total : Total str_le.
Proof. intros a b. unfold str_le. apply String.leb_total. Qed.

#[local] Instance str_le_antisym : AntiSymm (=) str_le.
Proof. intros a b. unfold str_le. apply String.leb_antisym. Qed.

Lemma str_le_cases a b : str_le a b ↔ a = b ∨ String_as_OT.lt a b.
Proof.
  unfold str_le, String.leb.
  destruct (String.compare a b) eqn:E; split; intros H; try done.
  - left. by apply String_as_OT.cmp_eq.
  - right. by apply String_as_OT.cmp_lt.
  - destruct H as [H | H].
    + apply String_as_OT.cmp_eq in H. unfold String_as_OT.cmp in H. congruence.
    + apply String_as_OT.cmp_lt in H. unfold String_as_OT.cmp in H. congruence.
Qed.

#[local] Instance str_le_trans : Transitive str_le.
Proof.
  intros a b c Hab Hbc. apply str_le_cases in Hab, Hbc. apply str_le_cases.
  destruct Hab as [-> | Hab]; [done |].
  destruct Hbc as [<- | Hbc]; [by right |].
  right. eapply String_as_OT.lt_trans; eauto.
Qed.

Lemma elem_of_unique (column : list string) x :
  x ∈ unique column ↔ x ∈ column.
Proof.
  induction column as [| y rest IH]; simpl; [done |].
  rewrite !elem_of_cons, list_elem_of_filter, IH.
  destruct (decide (x = y)) as [-> | Hne]; [by split; left |].
  split; [intros [? | [_ ?]] | intros [? | ?]]; try done; by right.
Qed.

Lemma NoDup_unique (column : list string) : NoDup (unique column).
Proof.
  induction column as [| y rest IH]; simpl; [constructor |].
  apply NoDup_cons. split.
  - rewrite list_elem_of_filter. by intros [Hne _].
  - by apply NoDup_filter.
Qed.

Lemma elem_of_label_list (column : list string) x :
  x ∈ label_list column ↔ x ∈ column.
Proof.
  unfold label_list. rewrite merge_sort_Permutation. apply elem_of_unique.
Qed.

Lemma NoDup_label_list (column : list string) : NoDup (label_list column).
Proof.
  unfold label_list. rewrite merge_sort_Permutation. apply NoDup_unique.
Qed.

Lemma Sorted_label_list (column : list string) :
  Sorted str_le (label_list column).
Proof. unfold label_list. apply Sorted_merge_sort, _. Qed.

(** Two columns with the same values give the same vocabulary. *)
Lemma label_list_ext (c1 c2 : list string) :
  (∀ x, x ∈ c1 ↔ x ∈ c2) → label_list c1 = label_list c2.
Proof.
  intros H. apply (Sorted_unique str_le); try apply Sorted_label_list.
  apply NoDup_Permutation; try apply NoDup_label_list.
  intros x. by rewrite !elem_of_label_list.
Qed.

Lemma contains_spec label (l : list string) :
  contains label l = true ↔ label ∈ l.
Proof.
  unfold contains. rewrite existsb_exists. split.
  - intros (y & Hin & Heq). apply String.eqb_eq in Heq. subst.
    by apply list_elem_of_In.
  - intros Hin. exists label. split; [by apply list_elem_of_In |].
    apply String.eqb_refl.
Qed.

(** [index] finds the first position holding the label. *)
Lemma index_spec label (l : list string) :
  label ∈ l →
  ∃ i : nat, index label l = Ok (Z.of_nat i) ∧ l !! i = Some label ∧
             ∀ j : nat, (j < i)%nat → l !! j ≠ Some label.
Proof.
  induction l as [| y rest IH]; [by intros ?%elem_of_nil |].
  intros Hin. simpl. destruct (String.eqb y label) eqn:E.
  - apply String.eqb_eq in E. subst. exists 0%nat. repeat split; lia.
  - apply String.eqb_neq in E. apply elem_of_cons in Hin as [-> | Hin]; [done |].
    destruct (IH Hin) as (i & Hi & Hl & Hfirst). exists (S i).
    rewrite Hi. simpl. repeat split; [f_equal; lia | done |].
    intros [| j] Hj; simpl; [congruence | apply Hfirst; lia].
Qed.

Lemma index_absent label (l : list string) :
  label ∉ l → index label l = Raise ValueError.
Proof.
  induction l as [| y rest IH]; [done |].
  intros Hnin. apply not_elem_of_cons in Hnin as [Hne Hnin]. simpl.
  destruct (String.eqb y label) eqn:E.
  - apply String.eqb_eq in E. congruence.
  - by rewrite IH.
Qed.

Lemma label_to_id_present label (l : list string) :
  label ∈ l →
  ∃ i : nat, label_to_id label l = Ok (PyInt (Z.of_nat i)) ∧
             l !! i = Some label.
Proof.
  intros Hin. destruct (index_spec label l Hin) as (i & Hi & Hl & _).
  exists i. split; [| done]. unfold label_to_id.
  destruct l as [| y rest]; [by apply elem_of_nil in Hin |].
  apply contains_spec in Hin as ->. by rewrite Hi.
Qed.

Lemma label_to_id_absent label (l : list string) :
  l ≠ [] → label ∉ l → label_to_id label l = Ok (PyInt (-1)).
Proof.
  intros Hne Hnin. unfold label_to_id. destruct l as [| y rest]; [done |].
  destruct (contains label (y :: rest)) eqn:E; [| done].
  by apply contains_spec in E.
Qed.

Lemma label_list_nonempty (column : list string) :
  column ≠ [] → label_list column ≠ [].
Proof.
  destruct column as [| x rest]; [done |]. intros _ Hnil.
  assert (x ∈ label_list (x :: rest)) as Hin
    by (apply elem_of_label_list; left).
  rewrite Hnil in Hin. by apply elem_of_nil in Hin.
Qed.

(** C4, as amended.  The vocabulary built from a non-empty column of label
    strings is that column's distinct labels in ascending lexicographic
    order, whatever the order and multiplicity in which the column lists
    them; over it [label_to_id] returns the position of a label that
    occurs in the column and -1 for one that does not.  For the column
    happy, sad, happy, angry the vocabulary is angry, happy, sad, where
    sad has id 2 and unknown has id -1. *)
Theorem label_vocabulary_ids (column : list string) (label : string)
  (Hne : column ≠ []) :
  (Sorted str_le (label_list column) ∧ NoDup (label_list column) ∧
   ∀ x, x ∈ label_list column ↔ x ∈ column) ∧
  (∀ column' : list string,
     (∀ x, x ∈ column' ↔ x ∈ column) →
     label_list column' = label_list column) ∧
  (label ∈ column →
   ∃ i : nat, label_to_id label (label_list column) = Ok (PyInt (Z.of_nat i)) ∧
              label_list column !! i = Some label) ∧
  (label ∉ column →
   label_to_id label (label_list column) = Ok (PyInt (-1))) ∧
  label_list ["happy"; "sad"; "happy"; "angry"] = ["angry"; "happy"; "sad"] ∧
  label_to_id "sad" ["angry"; "happy"; "sad"] = Ok (PyInt 2) ∧
  label_to_id "unknown" ["angry"; "happy"; "sad"] = Ok (PyInt (-1)).
Proof.
  repeat split; try reflexivity.
  - apply Sorted_label_list.
  - apply NoDup_label_list.
  - by apply elem_of_label_list.
  - by apply elem_of_label_list.
  - intros column' Hsame. by apply label_list_ext.
  - intros Hin. apply label_to_id_present. by apply elem_of_label_list.
  - intros Hnin. apply label_to_id_absent.
    + by apply label_list_nonempty.
    + by rewrite elem_of_label_list.
Qed.

Lemma label_vocabulary_ids_witness :
  ["happy"; "sad"; "happy"; "angry"] ≠ ([] : list string) ∧
  ∃ i : nat,
    label_to_id "sad" (label_list ["happy"; "sad"; "happy"; "angry"])
    = Ok (PyInt (Z.of_nat i)) ∧
    label_list ["happy"; "sad"; "happy"; "angry"] !! i = Some "sad".
Proof.
  split; [discriminate |].
  apply (label_vocabulary_ids ["happy"; "sad"; "happy"; "angry"] "sad").
  - discriminate.
  - apply list_elem_of_In. simpl. tauto.
Defined.

(** C4 as stated fails on the empty column: its vocabulary is empty, the
    label is absent from it, and [label_to_id] hands the label back
    instead of -1. *)
Lemma label_to_id_absent_counterexample :
  label_list [] = [] ∧
  ("unknown" ∉ label_list []) ∧
  label_to_id "unknown" (label_list []) = Ok (PyStr "unknown").
Proof. repeat split. apply not_elem_of_nil. Qed.

(** C10.  Over the empty vocabulary [label_to_id] returns its label
    argument unchanged, whatever the label; over a non-empty vocabulary it
    returns an integer, which is -1 exactly when the label is not in the
    vocabulary. *)
Theorem label_to_id_empty_vocabulary (label : string) :
  label_to_id label [] = Ok (PyStr label) ∧
  ∀ (first : string) (rest : list string),
    ∃ z : Z, label_to_id label (first :: rest) = Ok (PyInt z) ∧
             (z = -1 ↔ label ∉ (first :: rest)).
Proof.
  split; [reflexivity |]. intros first rest.
  destruct (decide (label ∈ first :: rest)) as [Hin | Hnin].
  - destruct (label_to_id_present _ _ Hin) as (i & Hi & _).
    exists (Z.of_nat i). split; [done |]. split; [lia | done].
  - exists (-1). split; [by apply label_to_id_absent |]. done.
Qed.

End LabelIndexerFacts.

(** ** Feature cache *)

(** A cache hit: the file's content is returned and nothing else happens,
    whatever decoder and examples the call is given. *)
Lemma ppf_speech_list_hit (decode_resample : string → result FeatureCache.waveform)
  (ex : FeatureCache.examples) (split : string) (w : FeatureCache.world)
  (cached : list FeatureCache.waveform) :
  FeatureCache.npy_files w !! FeatureCache.filepath_of split = Some cached →
  FeatureCache.ppf_speech_list decode_resample ex split w = (Ok cached, w).
Proof.
  intros Hfile.
  unfold FeatureCache.ppf_speech_list, mbind, FeatureCache.io_bind,
    FeatureCache.os_path_exists, FeatureCache.np_load.
  rewrite Hfile. rewrite bool_decide_eq_true_2 by done. by rewrite Hfile.
Qed.

Section FeatureCacheFacts.
Import FeatureCache.

Variable decode_resample : string → result waveform.

(** The list comprehension touches no [.npy] file and logs one load per
    path it reaches. *)
Lemma speech_list_of_files (paths : list string) (w : world) :
  npy_files (snd (speech_list_of decode_resample paths w)) = npy_files w.
Proof.
  revert w. induction paths as [| p rest IH]; intros w; [done |].
  simpl. unfold mbind, io_bind, speech_file_to_array_fn.
  destruct (decode_resample p) as [a | e]; [| done].
  specialize (IH (World (npy_files w) (loads w ++ [p]))).
  destruct (speech_list_of decode_resample rest _) as [[l | e] w'];
    simpl in *; done.
Qed.

(** When every path decodes, the comprehension returns the decoded
    waveforms, one per path, in the order of the paths. *)
Lemma speech_list_of_ok (paths : list string) (outs : list waveform)
  (w : world) :
  Forall2 (λ p a, decode_resample p = Ok a) paths outs →
  speech_list_of decode_resample paths w
  = (Ok outs, World (npy_files w) (loads w ++ paths)).
Proof.
  intros H. revert w. induction H as [| p a rest outs Hp _ IH]; intros w.
  - simpl. unfold mret, io_ret. rewrite app_nil_r. by destruct w.
  - simpl. unfold mbind, io_bind, speech_file_to_array_fn at 1.
    rewrite Hp, IH. simpl. by rewrite <- app_assoc.
Qed.

(** Conversely, the comprehension returns only such a list. *)
Lemma speech_list_of_inv (paths : list string) (outs : list waveform)
  (w w' : world) :
  speech_list_of decode_resample paths w = (Ok outs, w') →
  Forall2 (λ p a, decode_resample p = Ok a) paths outs.
Proof.
  revert outs w w'. induction paths as [| p rest IH]; intros outs w w'.
  - cbn. intros [= <- _]. constructor.
  - cbn. unfold mbind, io_bind, speech_file_to_array_fn at 1.
    destruct (decode_resample p) as [a | e] eqn:Hp; [| done].
    destruct (speech_list_of decode_resample rest _) as [[l | e] w1] eqn:Hrest;
      [| done].
    cbn. intros [= <- _]. constructor; [done |].
    by eapply IH.
Qed.

Lemma ppf_speech_list_miss (ex : examples) (split : string) (w : world) :
  npy_files w !! filepath_of split = None →
  ppf_speech_list decode_resample ex split w
  = match speech_list_of decode_resample (path ex) w with
    | (Ok l, w') =>
        (Ok l, World (<[filepath_of split := l]> (npy_files w')) (loads w'))
    | (Raise e, w') => (Raise e, w')
    end.
Proof.
  intros Hfile. unfold ppf_speech_list, mbind, io_bind, os_path_exists.
  rewrite Hfile. rewrite bool_decide_eq_false_2 by (by intros [? ?]).
  by destruct (speech_list_of decode_resample (path ex) w) as [[l | e] w'].
Qed.



End FeatureCacheFacts.




(** ** Pooling strategy *)

Section PoolingFacts.
Import Torch Model.

Lemma nth_vadd (x y : list Q) (j : nat) :
  (j < length x)%nat → (j < length y)%nat →
  nth j (vadd x y) 0%Q = (nth j x 0 + nth j y 0)%Q.
Proof.
  revert y j. induction x as [| a x IH]; intros [| c y] [| j]; simpl;
    try lia; [done |].
  intros. apply IH; lia.
Qed.

Lemma nth_vmax (x y : list Q) (j : nat) :
  (j < length x)%nat → (j < length y)%nat →
  nth j (vmax x y) 0%Q = Qmax (nth j x 0%Q) (nth j y 0%Q).
Proof.
  revert y j. induction x as [| a x IH]; intros [| c y] [| j]; simpl;
    try lia; [done |].
  intros. apply IH; lia.
Qed.

Lemma length_vadd (x y : list Q) (n : nat) :
  length x = n → length y = n → length (vadd x y) = n.
Proof. intros. unfold vadd. rewrite length_zip_with. lia. Qed.

Lemma length_vmax (x y : list Q) (n : nat) :
  length x = n → length y = n → length (vmax x y) = n.
Proof. intros. unfold vmax. rewrite length_zip_with. lia. Qed.

Lemma series_seq (j : nat) (frames : list (list Q)) :
  series j frames
  = map (λ t, nth j (nth t frames []) 0%Q) (seq 0 (length frames)).
Proof.
  induction frames as [| f rest IH]; [done |].
  simpl. f_equal. rewrite <- seq_shift, map_map. exact IH.
Qed.

Lemma fold_vadd (n : nat) (frames : list (list Q)) (acc : list Q) :
  Forall (λ frame : list Q, length frame = n) frames → length acc = n →
  length (fold_left vadd frames acc) = n ∧
  ∀ j, (j < n)%nat →
    (nth j (fold_left vadd frames acc) 0
     == nth j acc 0 + fold_right Qplus 0 (series j frames))%Q.
Proof.
  intros Hframes. revert acc.
  induction Hframes as [| f rest Hf _ IH]; intros acc Hacc; simpl.
  - split; [done |]. intros j _. ring.
  - destruct (IH (vadd acc f)) as [Hlen Hsum]; [by apply length_vadd |].
    split; [done |]. intros j Hj. rewrite (Hsum j Hj).
    rewrite nth_vadd by lia. ring.
Qed.

Lemma fold_vmax (n : nat) (frames : list (list Q)) (acc : list Q) :
  Forall (λ frame : list Q, length frame = n) frames → length acc = n →
  length (fold_left vmax frames acc) = n ∧
  ∀ j, (j < n)%nat →
    let v := nth j (fold_left vmax frames acc) 0%Q in
    (nth j acc 0 <= v)%Q ∧
    (∀ x, In x (series j frames) → (x <= v)%Q) ∧
    (v = nth j acc 0%Q ∨ In v (series j frames)).
Proof.
  intros Hframes. revert acc.
  induction Hframes as [| f rest Hf _ IH]; intros acc Hacc; simpl.
  - split; [done |]. intros j _. split; [apply Qle_refl |].
    split; [by intros ? [] | by left].
  - destruct (IH (vmax acc f)) as [Hlen Hmax]; [by apply length_vmax |].
    split; [done |]. intros j Hj.
    destruct (Hmax j Hj) as (Hacc' & Hrest & Hin).
    rewrite nth_vmax in Hacc', Hin by lia.
    split; [| split].
    + eapply Qle_trans; [apply Q.le_max_l | exact Hacc'].
    + intros x [<- | Hx]; [| by apply Hrest].
      eapply Qle_trans; [apply Q.le_max_r | exact Hacc'].
    + destruct Hin as [Hin | Hin]; [| by right; right].
      rewrite Hin. unfold Qmax, GenericMinMax.gmax.
      destruct (nth j acc 0 ?= nth j f 0)%Q; [by left | by right; left | by left].
Qed.

Lemma utterance_max (n : nat) (f : list Q) (rest : list (list Q)) (j : nat) :
  Forall (λ frame : list Q, length frame = n) (f :: rest) → (j < n)%nat →
  length (fold_left vmax rest f) = n ∧
  (∀ x, In x (series j (f :: rest)) → (x <= nth j (fold_left vmax rest f) 0)%Q) ∧
  In (nth j (fold_left vmax rest f) 0%Q) (series j (f :: rest)).
Proof.
  intros Hall Hj. apply Forall_cons in Hall as [Hf Hrest].
  destruct (fold_vmax n rest f Hrest Hf) as [Hlen Hmax].
  destruct (Hmax j Hj) as (Hacc & Hle & Hin). split; [done |]. split.
  - intros x [<- | Hx]; [done | by apply Hle].
  - destruct Hin as [-> | Hin]; [by left | by right].
Qed.

Lemma series_nth (j t : nat) (frames : list (list Q)) :
  (t < length frames)%nat →
  In (nth j (nth t frames []) 0%Q) (series j frames).
Proof.
  intros Ht. unfold series.
  apply (in_map (λ frame, nth j frame 0%Q)). by apply nth_In.
Qed.

Lemma series_inv (j : nat) (frames : list (list Q)) (v : Q) :
  In v (series j frames) →
  ∃ t, (t < length frames)%nat ∧ v = nth j (nth t frames []) 0%Q.
Proof.
  rewrite series_seq. intros (t & <- & Ht)%in_map_iff.
  apply in_seq in Ht. exists t. split; [lia | done].
Qed.

(** The frames of utterance [b] of a well-shaped batch. *)
Lemma well_shaped_utterance (h : Tensor3) (b : nat) :
  well_shaped h → (b < dim_batch h)%nat →
  length (nth b (data3 h) []) = dim_time h ∧
  Forall (λ frame : list Q, length frame = dim_hidden h) (nth b (data3 h) []).
Proof.
  intros [Hlen Hall] Hb.
  rewrite Forall_forall in Hall. apply Hall.
  apply list_elem_of_In, nth_In. lia.
Qed.

Lemma nth_map_utterance {A B} (F : list A → list B)
  (data : list (list A)) (b : nat) :
  (b < length data)%nat → nth b (map F data) [] = F (nth b data []).
Proof.
  intros Hb. rewrite (nth_indep _ [] (F [])) by (by rewrite length_map).
  apply map_nth.
Qed.

(** C2.  On a well-shaped batch of hidden states, for every utterance [b]
    and hidden component [j]: in mode sum the pooled value is the sum of
    that component over the frames; in mode mean (over at least one frame)
    it is that sum divided by the number of frames; in mode max (over at
    least one frame) it is the largest value the component takes over the
    frames.  The pooled batch has one row per utterance, of the hidden
    width.  The frames (1,2), (3,4), (5,6) pool to (3,4) by mean, (9,12) by
    sum and (5,6) by max. *)
Theorem merged_strategy_reduces (h : Tensor3) (b j : nat)
  (Hshape : well_shaped h) (Hb : (b < dim_batch h)%nat)
  (Hj : (j < dim_hidden h)%nat) :
  (∃ r, merged_strategy h "sum" = Ok r ∧
        length r = dim_batch h ∧ length (nth b r []) = dim_hidden h ∧
        (at2 r b j == sum_over (dim_time h) (λ t, at3 h b t j))%Q) ∧
  ((0 < dim_time h)%nat →
   ∃ r, merged_strategy h "mean" = Ok r ∧
        length r = dim_batch h ∧ length (nth b r []) = dim_hidden h ∧
        (at2 r b j == sum_over (dim_time h) (λ t, at3 h b t j)
                      / inject_Z (Z.of_nat (dim_time h)))%Q) ∧
  ((0 < dim_time h)%nat →
   ∃ r, merged_strategy h "max" = Ok r ∧
        length r = dim_batch h ∧ length (nth b r []) = dim_hidden h ∧
        (∀ t, (t < dim_time h)%nat → (at3 h b t j <= at2 r b j)%Q) ∧
        (∃ t, (t < dim_time h)%nat ∧ at2 r b j = at3 h b t j)) ∧
  merged_strategy hidden_example "sum" = Ok [[9; 12]]%Q ∧
  merged_strategy hidden_example "max" = Ok [[5; 6]]%Q ∧
  (∃ r, merged_strategy hidden_example "mean" = Ok r ∧
        tensor2_equiv r [[3; 4]]%Q).
Proof.
  destruct (well_shaped_utterance h b Hshape Hb) as [HT Hframes].
  pose proof Hshape as [HB _].
  assert (Hsum : length (nth b (sum_dim1 h) []) = dim_hidden h ∧
                 (at2 (sum_dim1 h) b j
                  == sum_over (dim_time h) (λ t, at3 h b t j))%Q).
  { unfold at2, sum_dim1. rewrite nth_map_utterance by lia.
    destruct (fold_vadd (dim_hidden h) (nth b (data3 h) [])
                (repeat 0%Q (dim_hidden h)) Hframes (repeat_length _ _))
      as [Hlen Hval].
    split; [done |]. rewrite (Hval j Hj).
    rewrite nth_repeat, series_seq, HT. unfold sum_over, at3. ring. }
  destruct Hsum as [Hsumlen Hsumval].
  split; [| split; [| split]].
  - exists (sum_dim1 h). repeat split; try done.
    unfold sum_dim1. by rewrite length_map.
  - intros Hpos. exists (mean_dim1 h). repeat split.
    + unfold mean_dim1, sum_dim1. by rewrite !length_map.
    + unfold mean_dim1. rewrite nth_map_utterance
        by (unfold sum_dim1; rewrite length_map; lia).
      by rewrite length_map.
    + unfold at2, mean_dim1. rewrite nth_map_utterance
        by (unfold sum_dim1; rewrite length_map; lia).
      set (d := inject_Z (Z.of_nat (dim_time h))).
      rewrite (nth_indep _ 0%Q ((λ s, s / d) 0)%Q)
        by (rewrite length_map; lia).
      rewrite (map_nth (λ s, s / d)%Q). unfold at2 in Hsumval.
      by rewrite Hsumval.
  - intros Hpos. unfold merged_strategy, max_dim1_values. simpl.
    destruct (Nat.eqb_spec (dim_time h) 0) as [? | _]; [lia |].
    eexists. split; [reflexivity |].
    split; [by rewrite length_map |].
    unfold at2. rewrite nth_map_utterance by lia. unfold at3.
    destruct (nth b (data3 h) []) as [| f rest] eqn:Hdata;
      [simpl in HT; lia |].
    destruct (utterance_max _ f rest j Hframes Hj) as (Hlen & Hle & Hin).
    split; [done |]. split.
    + intros t Ht. apply Hle, series_nth. lia.
    + apply series_inv in Hin as (t & Ht & Hv). exists t. split; [lia | done].
  - split; [reflexivity |]. split; [reflexivity |].
    eexists. split; [reflexivity |].
    repeat constructor.
Qed.

Lemma merged_strategy_reduces_witness :
  well_shaped hidden_example ∧
  ∃ r, merged_strategy hidden_example "sum" = Ok r ∧
       length r = dim_batch hidden_example ∧
       length (nth 0 r []) = dim_hidden hidden_example ∧
       (at2 r 0 1 == sum_over (dim_time hidden_example)
                       (λ t, at3 hidden_example 0 t 1))%Q.
Proof.
  assert (well_shaped hidden_example) as Hshape
    by (split; [reflexivity | repeat constructor]).
  split; [exact Hshape |].
  apply (merged_strategy_reduces hidden_example 0 1 Hshape);
    unfold dim_batch, dim_hidden; simpl; lia.
Defined.

(** C3.  A pooling mode other than mean, sum and max makes
    [merged_strategy] raise, whatever the hidden states; the mode median is
    one. *)
Theorem merged_strategy_invalid_mode (h : Tensor3) (mode : string)
  (Hmean : mode ≠ "mean") (Hsum : mode ≠ "sum") (Hmax : mode ≠ "max") :
  merged_strategy h mode = Raise (Exception pooling_error) ∧
  merged_strategy h "median" = Raise (Exception pooling_error).
Proof.
  split; [| reflexivity]. unfold merged_strategy.
  apply String.eqb_neq in Hmean, Hsum, Hmax. by rewrite Hmean, Hsum, Hmax.
Qed.

Lemma merged_strategy_invalid_mode_witness :
  merged_strategy hidden_example "median" = Raise (Exception pooling_error) ∧
  merged_strategy hidden_example "median" = Raise (Exception pooling_error).
Proof.
  apply (merged_strategy_invalid_mode hidden_example "median"); discriminate.
Defined.

End PoolingFacts.

(** ** Loss selector *)

Section ForwardFacts.
Import Torch Model.

Variable wav2vec2 :
  list (list Q) → option (list (list Z)) → option Datatypes.bool →
  option Datatypes.bool → Datatypes.bool → result BaseModelOutput.
Variable classifier : Tensor2 → Tensor2.
Variable MSELoss CrossEntropyLoss BCEWithLogitsLoss :
  Tensor2 → Labels → result Q.

Local Abbreviation fwd :=
  (forward wav2vec2 classifier MSELoss CrossEntropyLoss BCEWithLogitsLoss).
Local Abbreviation loss_for :=
  (compute_loss MSELoss CrossEntropyLoss BCEWithLogitsLoss).

(** [forward] once the encoder and the pooling have returned. *)
Lemma forward_reached (self : Wav2Vec2ForSpeechClassification)
  (a : ForwardArgs) (outputs : BaseModelOutput) (pooled : Tensor2) :
  pooled_by wav2vec2 self a outputs pooled →
  fwd self a
  = match labels a with
    | None =>
        (Ok (package (effective_return_dict self a) None (classifier pooled)
               outputs), self)
    | Some lab =>
        let self' :=
          match problem_type (self_config self) with
          | None => storing self (infer_problem_type (self_num_labels self)
                                    (l_dtype lab))
          | Some _ => self
          end in
        (loss ← loss_for (self_num_labels self')
                  (problem_type (self_config self')) (classifier pooled) lab;
         Ok (package (effective_return_dict self a) loss (classifier pooled)
               outputs), self')
    end.
Proof.
  intros [Henc Hpool]. unfold forward, effective_return_dict in *.
  rewrite Henc, Hpool. destruct (labels a) as [lab |]; [| done].
  cbv zeta. unfold storing.
  by destruct (loss_for _ _ _ _).
Qed.

(** A pass either leaves the model as it was or stores the inferred problem
    type in a configuration that had none. *)
Lemma forward_state (self : Wav2Vec2ForSpeechClassification)
  (a : ForwardArgs) :
  snd (fwd self a) = self ∨
  (problem_type (self_config self) = None ∧
   ∃ lab, labels a = Some lab ∧
          snd (fwd self a)
          = storing self (infer_problem_type (self_num_labels self)
                            (l_dtype lab))).
Proof.
  unfold forward.
  destruct (wav2vec2 _ _ _ _ _) as [outputs | e]; [| by left].
  destruct (merged_strategy _ _) as [pooled | e]; [| by left].
  destruct (labels a) as [lab |]; [| by left].
  destruct (problem_type (self_config self)) as [pt |] eqn:Hpt.
  - left. by destruct (loss_for _ _ _ _).
  - right. split; [done |]. exists lab. split; [done |].
    unfold storing. by destruct (loss_for _ _ _ _).
Qed.

Lemma forward_keeps_stored (self : Wav2Vec2ForSpeechClassification)
  (a : ForwardArgs) (pt : string) :
  problem_type (self_config self) = Some pt → snd (fwd self a) = self.
Proof.
  intros Hpt. destruct (forward_state self a) as [? | [Hnone _]]; [done |].
  congruence.
Qed.

Lemma run_keeps_stored (self : Wav2Vec2ForSpeechClassification)
  (passes : list ForwardArgs) (pt : string) :
  problem_type (self_config self) = Some pt →
  Forall (λ x, snd x = self)
    (run wav2vec2 classifier MSELoss CrossEntropyLoss BCEWithLogitsLoss
       self passes).
Proof.
  intros Hpt. induction passes as [| a rest IH]; simpl; [constructor |].
  pose proof (forward_keeps_stored self a pt Hpt) as Hkeep.
  destruct (fwd self a) as [r self']. simpl in Hkeep. subst self'.
  by constructor.
Qed.

Lemma length_run (self : Wav2Vec2ForSpeechClassification)
  (passes : list ForwardArgs) :
  length (run wav2vec2 classifier MSELoss CrossEntropyLoss BCEWithLogitsLoss
            self passes) = length passes.
Proof.
  revert self. induction passes as [| a rest IH]; intros self; simpl; [done |].
  destruct (fwd self a) as [r self']. simpl. by rewrite IH.
Qed.

(** C1, as amended.  On a forward pass with labels that reaches the loss
    selector while no problem type is configured: with exactly one class the
    loss is the mean-squared error between the logits (viewed as rows of one
    element) and the labels, and regression is stored; with more than one
    class and labels of dtype torch.long or torch.int it is the
    cross-entropy between the logits (viewed as rows of one element per
    class) and the flattened labels, and single-label classification is
    stored; with more than one class and labels of any other dtype it is
    the binary cross-entropy with logits between the logits and the labels,
    and multi-label classification is stored. *)
Theorem forward_selects_loss (self : Wav2Vec2ForSpeechClassification)
  (a : ForwardArgs) (lab : Labels) (outputs : BaseModelOutput)
  (pooled : Tensor2)
  (Hnone : problem_type (self_config self) = None)
  (Hlab : labels a = Some lab)
  (Hreach : pooled_by wav2vec2 self a outputs pooled) :
  (self_num_labels self = 1 →
   fwd self a
   = (v ← view_rows (classifier pooled) (self_num_labels self);
      l ← MSELoss v lab;
      Ok (package (effective_return_dict self a) (Some l) (classifier pooled)
            outputs),
      storing self "regression")) ∧
  (1 < self_num_labels self → l_dtype lab = long ∨ l_dtype lab = int →
   fwd self a
   = (v ← view_rows (classifier pooled) (self_num_labels self);
      l ← CrossEntropyLoss v (view_flat lab);
      Ok (package (effective_return_dict self a) (Some l) (classifier pooled)
            outputs),
      storing self "single_label_classification")) ∧
  (1 < self_num_labels self → l_dtype lab ≠ long → l_dtype lab ≠ int →
   fwd self a
   = (l ← BCEWithLogitsLoss (classifier pooled) lab;
      Ok (package (effective_return_dict self a) (Some l) (classifier pooled)
            outputs),
      storing self "multi_label_classification")).
Proof.
  rewrite (forward_reached self a outputs pooled Hreach), Hlab, Hnone.
  cbv zeta. unfold infer_problem_type. repeat split.
  - intros Hone. simpl. rewrite !Hone. simpl.
    destruct (view_rows (classifier pooled) 1) as [v | e]; [| done]. simpl.
    by destruct (MSELoss v lab).
  - intros Hmany Hdtype.
    destruct (Z.eqb_spec (self_num_labels self) 1) as [? | _]; [lia |].
    destruct (Z.ltb_spec 1 (self_num_labels self)) as [_ | ?]; [| lia].
    replace (dtype_eqb (l_dtype lab) long || dtype_eqb (l_dtype lab) int)
      with true by (by destruct Hdtype as [-> | ->]).
    simpl.
    destruct (view_rows (classifier pooled) (self_num_labels self)) as [v | e];
      [| done].
    simpl. by destruct (CrossEntropyLoss v (view_flat lab)).
  - intros Hmany Hlong Hint.
    destruct (Z.eqb_spec (self_num_labels self) 1) as [? | _]; [lia |].
    destruct (Z.ltb_spec 1 (self_num_labels self)) as [_ | ?]; [| lia].
    replace (dtype_eqb (l_dtype lab) long || dtype_eqb (l_dtype lab) int)
      with false by (by destruct (l_dtype lab)).
    simpl. by destruct (BCEWithLogitsLoss (classifier pooled) lab).
Qed.

(** C7.  A forward pass without labels that reaches the loss selector
    returns, leaves the model as it was, and its output carries no loss and
    the logits of the classification head; the same output results whatever
    the loss modules are, so none of them is consulted. *)
Theorem forward_without_labels (self : Wav2Vec2ForSpeechClassification)
  (a : ForwardArgs) (outputs : BaseModelOutput) (pooled : Tensor2)
  (MSELoss' CrossEntropyLoss' BCEWithLogitsLoss' : Tensor2 → Labels → result Q)
  (Hlab : labels a = None)
  (Hreach : pooled_by wav2vec2 self a outputs pooled) :
  ∃ out : ForwardOutput,
    fwd self a = (Ok out, self) ∧
    loss_of out = None ∧
    logits_of out = Some (classifier pooled) ∧
    out = (if effective_return_dict self a
           then OutDict (MkSpeechClassifierOutput None (classifier pooled)
                           (hidden_states outputs) (attentions outputs))
           else OutTuple (ItemLogits (classifier pooled)
                            :: map ItemExtra (outputs_from_2 outputs))) ∧
    forward wav2vec2 classifier MSELoss' CrossEntropyLoss' BCEWithLogitsLoss'
      self a = (Ok out, self).
Proof.
  eexists. split; [| split; [| split; [| split]]].
  - rewrite (forward_reached self a outputs pooled Hreach), Hlab. reflexivity.
  - unfold package. by destruct (effective_return_dict self a).
  - unfold package. by destruct (effective_return_dict self a).
  - unfold package. by destruct (effective_return_dict self a).
  - destruct Hreach as [Henc Hpool]. unfold forward, effective_return_dict in *.
    by rewrite Henc, Hpool, Hlab.
Qed.

(** C9.  When a forward pass with labels reaches the loss selector while no
    problem type is configured, the type inferred from the number of classes
    and the labels' dtype is stored.  From then on no forward pass changes
    the model again, whatever passes follow, and a later pass with labels
    computes its loss for the stored type, whatever the dtype and shape of
    its labels.  In any run, from any model, at most one pass changes the
    model: the outcomes before it see the initial model, the others the
    model with the stored type. *)
Theorem problem_type_inferred_once (self : Wav2Vec2ForSpeechClassification)
  (a : ForwardArgs) (lab : Labels) (outputs : BaseModelOutput)
  (pooled : Tensor2)
  (Hnone : problem_type (self_config self) = None)
  (Hlab : labels a = Some lab)
  (Hreach : pooled_by wav2vec2 self a outputs pooled) :
  let pt := infer_problem_type (self_num_labels self) (l_dtype lab) in
  snd (fwd self a) = storing self pt ∧
  problem_type (self_config (storing self pt)) = Some pt ∧
  (∀ later : list ForwardArgs,
     Forall (λ x, snd x = storing self pt)
       (run wav2vec2 classifier MSELoss CrossEntropyLoss BCEWithLogitsLoss
          (storing self pt) later)) ∧
  (∀ (a' : ForwardArgs) (lab' : Labels) (outputs' : BaseModelOutput)
     (pooled' : Tensor2),
     labels a' = Some lab' →
     pooled_by wav2vec2 (storing self pt) a' outputs' pooled' →
     fwd (storing self pt) a'
     = (loss ← loss_for (self_num_labels self) (Some pt) (classifier pooled')
                 lab';
        Ok (package (effective_return_dict (storing self pt) a') loss
              (classifier pooled') outputs'),
        storing self pt)) ∧
  (∀ (m : Wav2Vec2ForSpeechClassification) (passes : list ForwardArgs),
     ∃ (k : nat) (m' : Wav2Vec2ForSpeechClassification),
       (k ≤ length passes)%nat ∧
       map snd (run wav2vec2 classifier MSELoss CrossEntropyLoss
                  BCEWithLogitsLoss m passes)
       = replicate k m ++ replicate (length passes - k) m' ∧
       (m' = m ∨ (problem_type (self_config m) = None ∧
                  ∃ pt', m' = storing m pt'))).
Proof.
  intros pt. split; [| split; [| split; [| split]]].
  - rewrite (forward_reached self a outputs pooled Hreach), Hlab, Hnone.
    reflexivity.
  - reflexivity.
  - intros later. by apply (run_keeps_stored _ _ pt).
  - intros a' lab' outputs' pooled' Hlab' Hreach'.
    rewrite (forward_reached _ a' outputs' pooled' Hreach'), Hlab'.
    reflexivity.
  - intros m passes. revert m.
    induction passes as [| p rest IH]; intros m.
    + exists 0%nat, m. split; [done |]. split; [done | by left].
    + simpl. destruct (forward_state m p) as [Hsame | (Hm & lab0 & _ & Hstore)].
      * destruct (fwd m p) as [r m1]. simpl in Hsame. subst m1.
        destruct (IH m) as (k & m' & Hk & Hrun & Hm').
        exists (S k), m'. split; [lia |]. split; [| done].
        simpl. by rewrite Hrun.
      * destruct (fwd m p) as [r m1]. simpl in Hstore.
        exists 0%nat, m1. split; [lia |]. split.
        -- simpl. f_equal.
           pose proof (run_keeps_stored m1 rest
             (infer_problem_type (self_num_labels m) (l_dtype lab0))) as Hkeep.
           rewrite Hstore in Hkeep at 1. specialize (Hkeep eq_refl).
           rewrite <- (length_run m1 rest).
           clear -Hkeep. induction Hkeep as [| x l Hx _ IHl]; [done |].
           simpl. by rewrite Hx, IHl.
        -- right. split; [done |]. by eexists.
Qed.

End ForwardFacts.

(** C1 as stated fails for integer element types other than torch.long and
    torch.int: with four classes and int16 labels the pass stores
    multi-label classification and its loss is the one of
    [BCEWithLogitsLoss]. *)
Lemma forward_int16_counterexample :
  Model.self_num_labels example_model = 4 ∧
  is_integer_dtype Torch.int16 = true ∧
  example_forward example_model (example_pass (Some (example_labels Torch.int16)))
  = (Ok (Model.OutDict
           (Model.MkSpeechClassifierOutput (Some 3%Q) [[0; 0; 0; 0]%Q]
              None None)),
     storing example_model "multi_label_classification").
Proof. repeat split. Qed.

Lemma example_pooled_by (self : Model.Wav2Vec2ForSpeechClassification)
  (a : Model.ForwardArgs) :
  Model.self_pooling_mode self = "mean" →
  pooled_by example_wav2vec2 self a example_outputs
    (Torch.mean_dim1 hidden_example).
Proof. intros Hmode. split; [done |]. by rewrite Hmode. Qed.

Lemma forward_selects_loss_witness :
  Model.problem_type (Model.self_config example_model) = None ∧
  1 < Model.self_num_labels example_model ∧
  example_forward example_model (example_pass (Some (example_labels Torch.long)))
  = (Ok (Model.OutDict
           (Model.MkSpeechClassifierOutput (Some 2%Q) [[0; 0; 0; 0]%Q]
              None None)),
     storing example_model "single_label_classification").
Proof.
  split; [reflexivity |]. split; [reflexivity |].
  refine (proj1 (proj2 (forward_selects_loss example_wav2vec2
    (example_classifier 4) example_MSELoss example_CrossEntropyLoss
    example_BCEWithLogitsLoss example_model
    (example_pass (Some (example_labels Torch.long)))
    (example_labels Torch.long) example_outputs
    (Torch.mean_dim1 hidden_example) eq_refl eq_refl
    (example_pooled_by example_model
       (example_pass (Some (example_labels Torch.long))) eq_refl))) _ _).
  - reflexivity.
  - by left.
Defined.

Lemma forward_without_labels_witness :
  ∃ out : Model.ForwardOutput,
    example_forward example_model (example_pass None) = (Ok out, example_model) ∧
    Model.loss_of out = None ∧
    Model.logits_of out = Some [[0; 0; 0; 0]%Q].
Proof.
  destruct (forward_without_labels example_wav2vec2 (example_classifier 4)
    example_MSELoss example_CrossEntropyLoss example_BCEWithLogitsLoss
    example_model (example_pass None) example_outputs
    (Torch.mean_dim1 hidden_example)
    example_MSELoss example_CrossEntropyLoss example_BCEWithLogitsLoss
    eq_refl (example_pooled_by example_model (example_pass None) eq_refl))
    as (out & Hfwd & Hloss & Hlogits & _).
  exists out. split; [exact Hfwd |]. split; [exact Hloss | exact Hlogits].
Defined.

Lemma problem_type_inferred_once_witness :
  Model.problem_type (Model.self_config example_model) = None ∧
  snd (example_forward example_model
         (example_pass (Some (example_labels Torch.long))))
  = storing example_model "single_label_classification".
Proof.
  split; [reflexivity |].
  exact (proj1 (problem_type_inferred_once example_wav2vec2
    (example_classifier 4) example_MSELoss example_CrossEntropyLoss
    example_BCEWithLogitsLoss example_model
    (example_pass (Some (example_labels Torch.long)))
    (example_labels Torch.long) example_outputs
    (Torch.mean_dim1 hidden_example) eq_refl eq_refl
    (example_pooled_by example_model
       (example_pass (Some (example_labels Torch.long))) eq_refl))).
Defined.

(** ** Padding collator *)

Section CollatorFacts.
Import Torch Collator.

Variable processor_pad :
  list (list Q) → Datatypes.bool → option Z → option Z →
  result (list (list Q) * list (list Z)).
Variable tensor_data : list pyobj → dtype → result (list nat * list Q).

(** C8, as amended.  On a non-empty batch for which padding and the
    conversion of the labels return, the collator returns the padded inputs
    and the labels stacked into one tensor, whose dtype is torch.long when
    the label of the first record is a Python int and torch.float
    otherwise.  So it is torch.long for a batch whose labels are all ints
    and torch.float for a batch none of whose labels is an int. *)
Theorem call_labels_dtype (self : DataCollatorCTCWithPadding)
  (first : Feature) (rest : list Feature)
  (values : list (list Q)) (mask : list (list Z))
  (shape : list nat) (elements : list Q)
  (Hpad : processor_pad (map f_input_values (first :: rest)) (padding self)
            (max_length self) (pad_to_multiple_of self) = Ok (values, mask))
  (Htensor : tensor_data (map f_labels (first :: rest))
               (if isinstance_int (f_labels first) then long else float)
             = Ok (shape, elements)) :
  ∃ batch : Batch,
    call processor_pad tensor_data self (first :: rest) = Ok batch ∧
    b_input_values batch = values ∧ b_attention_mask batch = mask ∧
    l_shape (b_labels batch) = shape ∧ l_values (b_labels batch) = elements ∧
    l_dtype (b_labels batch)
    = (if isinstance_int (f_labels first) then long else float) ∧
    (Forall (λ f, isinstance_int (f_labels f) = true) (first :: rest) →
     l_dtype (b_labels batch) = long) ∧
    (Forall (λ f, isinstance_int (f_labels f) = false) (first :: rest) →
     l_dtype (b_labels batch) = float).
Proof.
  eexists. split.
  - unfold call, d_type_of, torch_tensor. simpl map in *. cbn beta iota.
    unfold mbind at 1, result_bind at 1.
    rewrite Hpad. unfold mbind at 1, result_bind at 1. cbn beta iota.
    rewrite Htensor. reflexivity.
  - simpl. repeat split.
    + intros Hall. apply Forall_cons in Hall as [-> _]. done.
    + intros Hall. apply Forall_cons in Hall as [-> _]. done.
Qed.

End CollatorFacts.

(** C8 as stated fails on a batch whose first label is an int and whose
    second is a float: the labels are not integer labels, and the collator
    stacks them into a torch.long tensor. *)
Lemma call_mixed_labels_counterexample :
  isinstance_int (PyFloat (3 # 2)) = false ∧
  Collator.call example_pad example_tensor_data example_collator
    [Collator.MkFeature [0%Q] (PyInt 2);
     Collator.MkFeature [0%Q] (PyFloat (3 # 2))]
  = Ok (Collator.MkBatch [[0%Q]; [0%Q]] [[1]; [1]]
          (Torch.MkLabels Torch.long [2%nat] [2%Q; 1%Q])).
Proof. split; reflexivity. Qed.

Lemma call_labels_dtype_witness :
  ∃ batch : Collator.Batch,
    Collator.call example_pad example_tensor_data example_collator
      [Collator.MkFeature [0%Q] (PyInt 2); Collator.MkFeature [0%Q] (PyInt 0)]
    = Ok batch ∧
    Torch.l_dtype (Collator.b_labels batch) = Torch.long.
Proof.
  destruct (call_labels_dtype example_pad example_tensor_data example_collator
    (Collator.MkFeature [0%Q] (PyInt 2)) [Collator.MkFeature [0%Q] (PyInt 0)]
    [[0%Q]; [0%Q]] [[1]; [1]] [2%nat] [2%Q; 0%Q] eq_refl eq_refl)
    as (batch & Hcall & _ & _ & _ & _ & Hdtype & _).
  exists batch. split; [exact Hcall | exact Hdtype].
Defined.

(** * Further properties of the code *)

(** ** Label indexer: ids *)

Section LabelIdFacts.
Import LabelIndexer.

Lemma label_to_id_cases (label : string) (l : list string) :
  ∃ v : pyobj,
    label_to_id label l = Ok v ∧
    ((l = [] ∧ v = PyStr label) ∨
     ((l ≠ [] ∧ label ∉ l) ∧ v = PyInt (-1)) ∨
     (∃ i : nat, v = PyInt (Z.of_nat i) ∧ l !! i = Some label ∧
                 ∀ j : nat, (j < i)%nat → l !! j ≠ Some label)).
Proof.
  destruct l as [| y rest]; [exists (PyStr label); split; [done | by left] |].
  destruct (decide (label ∈ y :: rest)) as [Hin | Hnin].
  - destruct (index_spec label (y :: rest) Hin) as (i & Hi & Hl & Hfirst).
    exists (PyInt (Z.of_nat i)). split.
    + unfold label_to_id. apply contains_spec in Hin. rewrite Hin.
      by rewrite Hi.
    + right. right. by exists i.
  - exists (PyInt (-1)). split; [by apply label_to_id_absent |].
    right. left. done.
Qed.

(** [label_to_id] never raises, whatever the label and the list (which may
    repeat labels): the membership test guards the call of [index].  It
    hands back the label on an empty list, -1 for a label the list lacks,
    and otherwise the position of the label's first occurrence. *)
Theorem label_to_id_returns (label : string) (l : list string) :
  ∃ v : pyobj,
    label_to_id label l = Ok v ∧
    ((l = [] ∧ v = PyStr label) ∨
     ((l ≠ [] ∧ label ∉ l) ∧ v = PyInt (-1)) ∨
     (∃ i : nat, v = PyInt (Z.of_nat i) ∧ l !! i = Some label ∧
                 ∀ j : nat, (j < i)%nat → l !! j ≠ Some label)).
Proof. apply label_to_id_cases. Qed.

Lemma label_to_id_int_inv (label : string) (l : list string) (i : Z) :
  label_to_id label l = Ok (PyInt i) → 0 ≤ i →
  l !! Z.to_nat i = Some label.
Proof.
  intros Hid Hi.
  destruct (label_to_id_cases label l) as (v & Hv & Hcases).
  rewrite Hid in Hv. injection Hv as <-.
  destruct Hcases as [[_ ?] | [[_ ?] | (k & Hk & Hl & _)]]; try done.
  - injection H as ->. lia.
  - injection Hk as ->. by rewrite Nat2Z.id.
Qed.

(** Ids tell labels apart: two labels that [label_to_id] maps to the same
    non-negative id in one list are the same label, and that id is below
    the length of the list. *)
Theorem label_to_id_injective (a b : string) (l : list string) (i : Z)
  (Ha : label_to_id a l = Ok (PyInt i))
  (Hb : label_to_id b l = Ok (PyInt i))
  (Hi : 0 ≤ i) :
  a = b ∧ i < Z.of_nat (length l).
Proof.
  pose proof (label_to_id_int_inv a l i Ha Hi) as Hla.
  pose proof (label_to_id_int_inv b l i Hb Hi) as Hlb.
  split; [congruence |].
  apply lookup_lt_Some in Hla. lia.
Qed.

Lemma label_to_id_injective_witness :
  "sad" = "sad" ∧ 2 < Z.of_nat (length ["angry"; "happy"; "sad"]).
Proof.
  apply (label_to_id_injective "sad" "sad" ["angry"; "happy"; "sad"] 2);
    [reflexivity | reflexivity | lia].
Defined.

Lemma label_list_id_round_trip_aux (column : list string) (i : nat)
  (label : string) :
  label_list column !! i = Some label →
  label_to_id label (label_list column) = Ok (PyInt (Z.of_nat i)).
Proof.
  intros Hat.
  assert (label ∈ label_list column) as Hin
    by (apply list_elem_of_lookup; eauto).
  destruct (label_to_id_present label _ Hin) as (k & Hk & Hl).
  rewrite Hk. do 3 f_equal.
  eapply NoDup_lookup; [apply NoDup_label_list | done | done].
Qed.

(** Round trip over the vocabulary: the label stored at position [i] of the
    vocabulary built from a column gets the id [i]. *)
Theorem label_list_id_round_trip (column : list string) (i : nat)
  (label : string)
  (Hat : label_list column !! i = Some label) :
  label_to_id label (label_list column) = Ok (PyInt (Z.of_nat i)).
Proof. by apply label_list_id_round_trip_aux. Qed.

Lemma label_list_id_round_trip_witness :
  label_to_id "happy" (label_list ["happy"; "sad"; "happy"; "angry"])
  = Ok (PyInt (Z.of_nat 1)).
Proof.
  apply (label_list_id_round_trip ["happy"; "sad"; "happy"; "angry"] 1 "happy").
  reflexivity.
Defined.

(** Building the vocabulary again from a vocabulary changes nothing, and a
    vocabulary is never longer than the column it was built from. *)
Theorem label_list_idempotent (column : list string) :
  label_list (label_list column) = label_list column ∧
  (length (label_list column) ≤ length column)%nat.
Proof.
  split.
  - apply label_list_ext. intros x. apply elem_of_label_list.
  - apply submseteq_length, NoDup_submseteq; [apply NoDup_label_list |].
    intros x. by rewrite elem_of_label_list.
Qed.

End LabelIdFacts.

(** ** Feature cache: failures and what a call leaves alone *)

Lemma string_append_length (s t : string) :
  String.length (s +:+ t) = (String.length s + String.length t)%nat.
Proof.
  induction s as [| a s IH]; [done |].
  change (S (String.length (s +:+ t)) = S (String.length s + String.length t)).
  by rewrite IH.
Qed.

Lemma string_append_inj_r (s s' t : string) : s +:+ t = s' +:+ t → s = s'.
Proof.
  revert s'. induction s as [| a s IH]; intros [| a' s'] H.
  - done.
  - apply (f_equal String.length) in H.
    rewrite !string_append_length in H. simpl in H. lia.
  - apply (f_equal String.length) in H.
    rewrite !string_append_length in H. simpl in H. lia.
  - change (String a (s +:+ t) = String a' (s' +:+ t)) in H.
    injection H as -> H. f_equal. by apply IH.
Qed.

Lemma filepath_of_inj (split split' : string) :
  FeatureCache.filepath_of split = FeatureCache.filepath_of split' →
  split = split'.
Proof.
  unfold FeatureCache.filepath_of. intros H.
  apply (inj (String.app _)) in H. by apply string_append_inj_r in H.
Qed.

Section FeatureCacheFailures.
Import FeatureCache.

Variable decode_resample : string → result waveform.

Lemma speech_list_of_app (paths1 paths2 : list string) (w : world) :
  speech_list_of decode_resample (paths1 ++ paths2) w
  = match speech_list_of decode_resample paths1 w with
    | (Ok l1, w1) =>
        match speech_list_of decode_resample paths2 w1 with
        | (Ok l2, w2) => (Ok (l1 ++ l2), w2)
        | (Raise e, w2) => (Raise e, w2)
        end
    | (Raise e, w1) => (Raise e, w1)
    end.
Proof.
  revert w. induction paths1 as [| p rest IH]; intros w.
  - cbn. by destruct (speech_list_of decode_resample paths2 w) as [[l | e] w'].
  - cbn. unfold mbind, io_bind, speech_file_to_array_fn.
    destruct (decode_resample p) as [a | e]; [| done].
    rewrite IH.
    destruct (speech_list_of decode_resample rest _) as [[l1 | e] w1]; cbn;
      [| done].
    by destruct (speech_list_of decode_resample paths2 w1) as [[l2 | e] w2].
Qed.

(** A path that fails to decode aborts the whole build: on a cache miss the
    call raises the decoder's error, the paths after the failing one are
    never opened, and no cache file is written. *)
Theorem ppf_speech_list_decode_failure (ex : examples) (split : string)
  (w : world) (before after : list string) (p : string)
  (outs : list waveform) (e : exn)
  (Hpaths : path ex = before ++ p :: after)
  (Hbefore : Forall2 (λ q a, decode_resample q = Ok a) before outs)
  (Hfail : decode_resample p = Raise e)
  (Hmiss : npy_files w !! filepath_of split = None) :
  ppf_speech_list decode_resample ex split w
  = (Raise e, World (npy_files w) (loads w ++ before ++ [p])).
Proof.
  rewrite ppf_speech_list_miss by done.
  rewrite Hpaths, speech_list_of_app, (speech_list_of_ok _ _ outs) by done.
  cbn. unfold mbind, io_bind, speech_file_to_array_fn at 1. rewrite Hfail.
  cbn. by rewrite <- app_assoc.
Qed.

(** A call reads and writes the cache file of its own split only: the cache
    file of any other split is after the call what it was before, whether
    the call returns or raises. *)
Theorem ppf_speech_list_other_splits (ex : examples) (split split' : string)
  (w : world) (Hother : split' ≠ split) :
  npy_files (snd (ppf_speech_list decode_resample ex split w))
    !! filepath_of split'
  = npy_files w !! filepath_of split'.
Proof.
  destruct (npy_files w !! filepath_of split) as [cached |] eqn:Hfile.
  - by rewrite (ppf_speech_list_hit _ _ _ _ _ Hfile).
  - rewrite ppf_speech_list_miss by done.
    pose proof (speech_list_of_files decode_resample (path ex) w) as Hfiles.
    destruct (speech_list_of decode_resample (path ex) w) as [[l | e] w'];
      simpl in *.
    + rewrite lookup_insert_ne; [by rewrite Hfiles |].
      intros Heq. by apply filepath_of_inj in Heq.
    + by rewrite Hfiles.
Qed.

End FeatureCacheFailures.

Lemma ppf_speech_list_decode_failure_witness :
  FeatureCache.ppf_speech_list example_decoder
    (FeatureCache.Examples ["a.wav"; "b.mp3"; "c.wav"] ["sad"; "sad"; "sad"])
    "train" (FeatureCache.World ∅ [])
  = (Raise (DecodeError "b.mp3"),
     FeatureCache.World ∅ ([] ++ ["a.wav"] ++ ["b.mp3"])).
Proof.
  assert (Forall2 (λ q a, example_decoder q = Ok a) ["a.wav"] [[0%Q]]) as Hok
    by (by repeat constructor).
  exact (ppf_speech_list_decode_failure example_decoder
           (FeatureCache.Examples ["a.wav"; "b.mp3"; "c.wav"]
              ["sad"; "sad"; "sad"])
           "train" (FeatureCache.World ∅ []) ["a.wav"] ["c.wav"] "b.mp3"
           [[0%Q]] (DecodeError "b.mp3") eq_refl Hok eq_refl
           (lookup_empty _)).
Defined.

Lemma ppf_speech_list_other_splits_witness :
  FeatureCache.npy_files
    (snd (FeatureCache.ppf_speech_list (λ _, Ok [0%Q])
            (FeatureCache.Examples ["a.wav"] ["sad"]) "eval" stale_world))
    !! FeatureCache.filepath_of "train"
  = FeatureCache.npy_files stale_world !! FeatureCache.filepath_of "train".
Proof.
  apply (ppf_speech_list_other_splits (λ _, Ok [0%Q])
           (FeatureCache.Examples ["a.wav"] ["sad"]) "eval" "train" stale_world).
  discriminate.
Defined.

(** ** Preprocessing with and without the cache *)

Section PreprocessFacts.
Import FeatureCache Preprocess.

Variable decode_resample : string → result waveform.
Variable feature : Type.
Variable processor : list waveform → result (list feature).
Variable nested_array_catcher : feature → result feature.
Variable label_list : list string.

(** The ids of a column of labels: [label_to_id] raises on none of them. *)
Lemma target_list_ok (column : list string) :
  ∃ ids : list pyobj,
    mapM (λ label, LabelIndexer.label_to_id label label_list) column = Ok ids ∧
    Forall2 (λ label id, LabelIndexer.label_to_id label label_list = Ok id)
      column ids.
Proof.
  induction column as [| label rest (ids & Hids & Hall)].
  - exists []. split; [done | constructor].
  - destruct (label_to_id_cases label label_list) as (v & Hv & _).
    exists (v :: ids). split; [| by constructor].
    cbn. rewrite Hv. cbn. by rewrite Hids.
Qed.


(** Once the waveforms are there and the extractor and the flattening pass
    return, [ppf] returns their features together with one label id per row
    of the [emotion] column, in row order. *)
Theorem ppf_returns_labels (ex : examples) (split : string) (w w1 : world)
  (speech_list : list waveform) (values values' : list feature)
  (Hspeech : ppf_speech_list decode_resample ex split w = (Ok speech_list, w1))
  (Hprocessor : processor speech_list = Ok values)
  (Hcatch : mapM nested_array_catcher values = Ok values') :
  ∃ ids : list pyobj,
    ppf decode_resample feature processor nested_array_catcher label_list
      ex split w
    = (Ok (MkBatchFeature values' ids), w1) ∧
    length ids = length (emotion ex) ∧
    Forall2 (λ label id, LabelIndexer.label_to_id label label_list = Ok id)
      (emotion ex) ids.
Proof.
  destruct (target_list_ok (emotion ex)) as (ids & Hids & Hall).
  exists ids. split; [| split; [symmetry; by eapply Forall2_length | done]].
  unfold ppf, mbind at 1, io_bind. rewrite Hspeech. unfold lift.
  rewrite Hids. cbn. rewrite Hprocessor. cbn. by rewrite Hcatch.
Qed.

End PreprocessFacts.


Lemma ppf_returns_labels_witness :
  ∃ ids : list pyobj,
    FeatureCache.ppf example_decoder (list Q) (λ l, Ok l) (λ x, Ok x)
      ["angry"; "sad"] (FeatureCache.Examples ["a.wav"] ["sad"]) "train"
      stale_world
    = (Ok (FeatureCache.MkBatchFeature [[1%Q]] ids), stale_world) ∧
    length ids = 1%nat.
Proof.
  destruct (ppf_returns_labels example_decoder (list Q) (λ l, Ok l)
    (λ x, Ok x) ["angry"; "sad"] (FeatureCache.Examples ["a.wav"] ["sad"])
    "train" stale_world stale_world [[1%Q]] [[1%Q]] [[1%Q]]
    (ppf_speech_list_hit _ _ _ _ _ (lookup_singleton_eq _ _))
    eq_refl eq_refl) as (ids & Hppf & Hlen & _).
  exists ids. split; [exact Hppf | exact Hlen].
Defined.

(** ** Views of the logits *)

Section ViewFacts.
Import Torch.

Lemma chunks_concat (n : nat) (t : list (list Q)) (fuel : nat) :
  (0 < n)%nat → Forall (λ row : list Q, length row = n) t →
  (length t ≤ fuel)%nat →
  chunks fuel n (concat t) = t.
Proof.
  intros Hn Hrows. revert fuel.
  induction Hrows as [| row rest Hrow _ IH]; intros fuel Hfuel.
  - by destruct fuel.
  - destruct fuel as [| fuel]; [simpl in Hfuel; lia |].
    simpl in *. destruct (row ++ concat rest) as [| x l] eqn:Happ.
    { apply (f_equal length) in Happ. rewrite length_app in Happ.
      simpl in Happ. lia. }
    rewrite <- Happ. rewrite take_app_length', drop_app_length' by done.
    rewrite IH by lia. done.
Qed.

Lemma length_concat_rows (n : nat) (t : list (list Q)) :
  Forall (λ row : list Q, length row = n) t →
  length (concat t) = (length t * n)%nat.
Proof.
  induction 1 as [| row rest Hrow _ IH]; [done |].
  simpl. rewrite length_app, IH, Hrow. lia.
Qed.

Lemma view_rows_same_width_aux (t : Tensor2) (n : Z) :
  0 < n → Forall (λ row : list Q, length row = Z.to_nat n) t →
  view_rows t n = Ok t.
Proof.
  intros Hn Hrows. unfold view_rows.
  pose proof (length_concat_rows _ _ Hrows) as Hlen.
  destruct (Z.leb_spec n 0) as [? | _]; [lia |].
  replace (Z.of_nat (length (concat t)) mod n =? 0) with true.
  - f_equal. apply chunks_concat; [lia | done |].
    rewrite Hlen. nia.
  - symmetry. apply Z.eqb_eq. rewrite Hlen, Nat2Z.inj_mul, Z2Nat.id by lia.
    apply Z_mod_mult.
Qed.

(** Viewing logits that already have one row per utterance and one column
    per class as [(-1, num_labels)] returns them unchanged: the view in the
    loss computation neither raises nor reorders anything on the output of
    a head with [num_labels] outputs. *)
Theorem view_rows_same_width (t : Tensor2) (n : Z)
  (Hn : 0 < n)
  (Hrows : Forall (λ row : list Q, length row = Z.to_nat n) t) :
  view_rows t n = Ok t.
Proof. by apply view_rows_same_width_aux. Qed.

Lemma view_rows_same_width_witness :
  view_rows [[0; 0; 0; 0]%Q; [1; 2; 3; 4]%Q] 4
  = Ok [[0; 0; 0; 0]%Q; [1; 2; 3; 4]%Q].
Proof.
  apply view_rows_same_width; [lia | by repeat constructor].
Defined.

Lemma chunks_spec (n : nat) (k : nat) (l : list Q) (fuel : nat) :
  (0 < n)%nat → length l = (k * n)%nat → (length l ≤ fuel)%nat →
  concat (chunks fuel n l) = l ∧
  length (chunks fuel n l) = k ∧
  Forall (λ row : list Q, length row = n) (chunks fuel n l).
Proof.
  intros Hn. revert l fuel.
  induction k as [| k IH]; intros l fuel Hlen Hfuel.
  - destruct l; [| simpl in Hlen; lia]. by destruct fuel.
  - destruct fuel as [| fuel]; [simpl in *; lia |].
    destruct l as [| x l]; [simpl in Hlen; lia |].
    cbn [chunks].
    destruct (IH (drop n (x :: l)) fuel) as (Hcat & Hcount & Hall).
    + rewrite length_drop, Hlen. lia.
    + rewrite length_drop. simpl in *. lia.
    + split; [| split].
      * cbn [concat]. rewrite Hcat. apply take_drop.
      * cbn [length]. by rewrite Hcount.
      * constructor; [| done]. rewrite length_take, Hlen. lia.
Qed.

(** A view as rows of [n] elements succeeds exactly when [n] is positive
    and divides the number of elements; it then keeps the elements in
    their row-major order and every row has [n] of them. *)
Theorem view_rows_spec (t : Tensor2) (n : Z) :
  match view_rows t n with
  | Ok rows =>
      0 < n ∧ concat rows = concat t ∧
      Z.of_nat (length rows) * n = Z.of_nat (length (concat t)) ∧
      Forall (λ row : list Q, Z.of_nat (length row) = n) rows
  | Raise e =>
      e = RuntimeError ∧
      (n ≤ 0 ∨ Z.of_nat (length (concat t)) mod n ≠ 0)
  end.
Proof.
  unfold view_rows.
  destruct (Z.leb_spec n 0) as [Hle | Hpos]; [split; [done | by left] |].
  destruct (Z.eqb_spec (Z.of_nat (length (concat t)) mod n) 0) as [Hmod | Hmod];
    [| split; [done | by right]].
  apply Z.mod_divide in Hmod; [| lia]. destruct Hmod as [k Hk].
  assert (0 ≤ k) as Hk0 by nia.
  destruct (chunks_spec (Z.to_nat n) (Z.to_nat k) (concat t)
              (length (concat t))) as (Hcat & Hcount & Hall);
    [lia | nia | lia |].
  split; [done |]. split; [done |]. split; [rewrite Hcount; nia |].
  eapply Forall_impl; [exact Hall |]. simpl. intros row Hrow. lia.
Qed.

End ViewFacts.

(** ** Forward pass: errors, unknown problem types, what a pass keeps *)

Section ForwardEdgeFacts.
Import Torch Model.

Variable wav2vec2 :
  list (list Q) → option (list (list Z)) → option Datatypes.bool →
  option Datatypes.bool → Datatypes.bool → result BaseModelOutput.
Variable classifier : Tensor2 → Tensor2.
Variable MSELoss CrossEntropyLoss BCEWithLogitsLoss :
  Tensor2 → Labels → result Q.

Local Abbreviation fwd :=
  (forward wav2vec2 classifier MSELoss CrossEntropyLoss BCEWithLogitsLoss).

(** With a pooling mode other than mean, sum and max, every forward pass
    whose encoder returns raises the pooling exception and leaves the model
    as it was, with or without labels: no problem type is inferred and no
    loss module is reached. *)
Theorem forward_invalid_pooling_mode (self : Wav2Vec2ForSpeechClassification)
  (a : ForwardArgs) (outputs : BaseModelOutput)
  (Hmean : self_pooling_mode self ≠ "mean")
  (Hsum : self_pooling_mode self ≠ "sum")
  (Hmax : self_pooling_mode self ≠ "max")
  (Henc : wav2vec2 (input_values a) (attention_mask a) (output_attentions a)
            (output_hidden_states a) (effective_return_dict self a)
          = Ok outputs) :
  fwd self a = (Raise (Exception pooling_error), self).
Proof.
  unfold forward, effective_return_dict in *. rewrite Henc.
  unfold merged_strategy.
  apply String.eqb_neq in Hmean, Hsum, Hmax. by rewrite Hmean, Hsum, Hmax.
Qed.

(** An error of the encoder is the error of the pass, and the model stays
    as it was. *)
Lemma forward_encoder_error (self : Wav2Vec2ForSpeechClassification)
  (a : ForwardArgs) (e : exn)
  (Henc : wav2vec2 (input_values a) (attention_mask a) (output_attentions a)
            (output_hidden_states a) (effective_return_dict self a)
          = Raise e) :
  fwd self a = (Raise e, self).
Proof. unfold forward, effective_return_dict in *. by rewrite Henc. Qed.

(** A configured problem type that is none of regression,
    single_label_classification and multi_label_classification is not an
    error: a pass with labels then computes no loss and returns what the
    same pass without labels returns. *)
Theorem forward_unknown_problem_type (self : Wav2Vec2ForSpeechClassification)
  (a : ForwardArgs) (lab : Labels) (pt : string)
  (outputs : BaseModelOutput) (pooled : Tensor2)
  (Hpt : problem_type (self_config self) = Some pt)
  (Hreg : pt ≠ "regression")
  (Hsingle : pt ≠ "single_label_classification")
  (Hmulti : pt ≠ "multi_label_classification")
  (Hlab : labels a = Some lab)
  (Hreach : pooled_by wav2vec2 self a outputs pooled) :
  fwd self a
  = (Ok (package (effective_return_dict self a) None (classifier pooled)
           outputs), self) ∧
  ∀ a0 : ForwardArgs,
    labels a0 = None →
    pooled_by wav2vec2 self a0 outputs pooled →
    effective_return_dict self a0 = effective_return_dict self a →
    fwd self a0 = fwd self a.
Proof.
  assert (fwd self a
          = (Ok (package (effective_return_dict self a) None
                   (classifier pooled) outputs), self)) as Hfwd.
  { rewrite (forward_reached _ _ _ _ _ self a outputs pooled Hreach).
    rewrite Hlab, Hpt. cbv zeta. rewrite Hpt. unfold compute_loss.
    apply String.eqb_neq in Hreg, Hsingle, Hmulti.
    by rewrite Hreg, Hsingle, Hmulti. }
  split; [exact Hfwd |].
  intros a0 Hnone Hreach0 Hrd. rewrite Hfwd.
  rewrite (forward_reached _ _ _ _ _ self a0 outputs pooled Hreach0), Hnone.
  by rewrite Hrd.
Qed.

(** A forward pass writes nothing but [config.problem_type]: the number of
    classes and the pooling mode of the model and every other field of the
    configuration are after the pass what they were before, whether the
    pass returns or raises. *)
Theorem forward_keeps_configuration (self : Wav2Vec2ForSpeechClassification)
  (a : ForwardArgs) :
  self_num_labels (snd (fwd self a)) = self_num_labels self ∧
  self_pooling_mode (snd (fwd self a)) = self_pooling_mode self ∧
  num_labels (self_config (snd (fwd self a))) = num_labels (self_config self) ∧
  pooling_mode (self_config (snd (fwd self a)))
  = pooling_mode (self_config self) ∧
  use_return_dict (self_config (snd (fwd self a)))
  = use_return_dict (self_config self).
Proof.
  destruct (forward_state wav2vec2 classifier MSELoss CrossEntropyLoss
              BCEWithLogitsLoss self a) as [-> | (_ & lab & _ & ->)]; done.
Qed.

End ForwardEdgeFacts.

Lemma forward_invalid_pooling_mode_witness :
  example_forward median_model (example_pass (Some (example_labels Torch.long)))
  = (Raise (Exception Model.pooling_error), median_model).
Proof.
  apply (forward_invalid_pooling_mode example_wav2vec2 (example_classifier 4)
           example_MSELoss example_CrossEntropyLoss example_BCEWithLogitsLoss
           median_model (example_pass (Some (example_labels Torch.long)))
           example_outputs); (discriminate || reflexivity).
Defined.

Lemma forward_unknown_problem_type_witness :
  example_forward ranking_model (example_pass (Some (example_labels Torch.long)))
  = (Ok (Model.OutDict
           (Model.MkSpeechClassifierOutput None [[0; 0; 0; 0]%Q] None None)),
     ranking_model).
Proof.
  refine (proj1 (forward_unknown_problem_type example_wav2vec2
    (example_classifier 4) example_MSELoss example_CrossEntropyLoss
    example_BCEWithLogitsLoss ranking_model
    (example_pass (Some (example_labels Torch.long)))
    (example_labels Torch.long) "ranking" example_outputs
    (Torch.mean_dim1 hidden_example) eq_refl _ _ _ eq_refl
    (example_pooled_by ranking_model
       (example_pass (Some (example_labels Torch.long))) eq_refl)));
    discriminate.
Defined.

(** ** Padding collator: errors, and the labels it hands to the model *)

Section CollatorEdgeFacts.
Import Torch Collator.

Variable processor_pad :
  list (list Q) → Datatypes.bool → option Z → option Z →
  result (list (list Q) * list (list Z)).
Variable tensor_data : list pyobj → dtype → result (list nat * list Q).

(** The collator on a non-empty batch, call by call. *)
Lemma call_cons (self : DataCollatorCTCWithPadding) (first : Feature)
  (rest : list Feature) :
  call processor_pad tensor_data self (first :: rest)
  = match processor_pad (map f_input_values (first :: rest)) (padding self)
            (max_length self) (pad_to_multiple_of self) with
    | Ok (values, mask) =>
        match tensor_data (map f_labels (first :: rest))
                (if isinstance_int (f_labels first) then long else float) with
        | Ok (shape, elements) =>
            Ok (MkBatch values mask
                  (MkLabels (if isinstance_int (f_labels first)
                             then long else float) shape elements))
        | Raise e => Raise e
        end
    | Raise e => Raise e
    end.
Proof.
  unfold call, d_type_of, torch_tensor. simpl map. cbn beta iota.
  unfold mbind, result_bind.
  destruct (processor_pad _ _ _ _) as [[values mask] | e]; [| done].
  by destruct (tensor_data _ _) as [[shape elements] | e].
Qed.

(** The collator raises [IndexError] on an empty batch before it pads
    anything; on a non-empty batch an error of the padding is raised
    whatever the labels are, and an error of the tensor construction is
    raised when the padding returned. *)
Theorem call_errors (self : DataCollatorCTCWithPadding) (first : Feature)
  (rest : list Feature) (e : exn) :
  call processor_pad tensor_data self [] = Raise IndexError ∧
  (processor_pad (map f_input_values (first :: rest)) (padding self)
     (max_length self) (pad_to_multiple_of self) = Raise e →
   call processor_pad tensor_data self (first :: rest) = Raise e) ∧
  (∀ padded : list (list Q) * list (list Z),
     processor_pad (map f_input_values (first :: rest)) (padding self)
       (max_length self) (pad_to_multiple_of self) = Ok padded →
     tensor_data (map f_labels (first :: rest))
       (if isinstance_int (f_labels first) then long else float) = Raise e →
     call processor_pad tensor_data self (first :: rest) = Raise e).
Proof.
  split; [reflexivity |]. rewrite call_cons. split.
  - intros Hpad. by rewrite Hpad.
  - intros [values mask] Hpad Htensor. by rewrite Hpad, Htensor.
Qed.

(** The collator produces labels of dtype torch.long or torch.float only,
    so the problem type a model without configured type infers from a
    collated batch is decided by the number of classes and by whether the
    first label of the batch is a Python int: regression for one class,
    otherwise single-label classification for an int and multi-label
    classification for anything else. *)
Theorem call_then_infer (self : DataCollatorCTCWithPadding)
  (first : Feature) (rest : list Feature) (batch : Batch) (n : Z)
  (Hcall : call processor_pad tensor_data self (first :: rest) = Ok batch) :
  (l_dtype (b_labels batch) = long ∨ l_dtype (b_labels batch) = float) ∧
  Model.infer_problem_type n (l_dtype (b_labels batch))
  = (if n =? 1 then "regression"
     else if (1 <? n) && isinstance_int (f_labels first)
          then "single_label_classification"
          else "multi_label_classification").
Proof.
  rewrite call_cons in Hcall.
  destruct (processor_pad _ _ _ _) as [[values mask] | e]; [| done].
  destruct (tensor_data _ _) as [[shape elements] | e]; [| done].
  injection Hcall as <-. cbn.
  unfold Model.infer_problem_type.
  destruct (isinstance_int (f_labels first)); cbn.
  - split; [by left | done].
  - split; [by right | done].
Qed.

End CollatorEdgeFacts.

Lemma call_errors_witness :
  Collator.call (λ _ _ _ _, Raise RuntimeError) example_tensor_data
    example_collator [Collator.MkFeature [0%Q] (PyInt 2)]
  = Raise RuntimeError.
Proof.
  refine (proj1 (proj2 (call_errors (λ _ _ _ _, Raise RuntimeError)
    example_tensor_data example_collator (Collator.MkFeature [0%Q] (PyInt 2))
    [] RuntimeError)) _).
  reflexivity.
Defined.

Lemma call_then_infer_witness :
  Model.infer_problem_type 4
    (Torch.l_dtype
       (Collator.b_labels
          (Collator.MkBatch [[0%Q]] [[1]]
             (Torch.MkLabels Torch.long [1%nat] [2%Q]))))
  = "single_label_classification".
Proof.
  exact (proj2 (call_then_infer example_pad example_tensor_data
    example_collator (Collator.MkFeature [0%Q] (PyInt 2)) []
    (Collator.MkBatch [[0%Q]] [[1]] (Torch.MkLabels Torch.long [1%nat] [2%Q]))
    4 eq_refl)).
Defined.

(** ** The label maps of the configuration *)

Section ScriptFacts.
Import LabelIndexer Script.

Lemma enumerate_snoc {A} (l : list A) (x : A) :
  enumerate (l ++ [x]) = enumerate l ++ [(Z.of_nat (length l), x)].
Proof.
  unfold enumerate. rewrite imap_app. simpl. by rewrite Nat.add_0_r.
Qed.

Lemma label2id_snoc (l : list string) (x : string) :
  label2id (l ++ [x]) = <[x := Z.of_nat (length l)]> (label2id l).
Proof. unfold label2id. by rewrite enumerate_snoc, fold_left_app. Qed.

Lemma id2label_snoc (l : list string) (x : string) :
  id2label (l ++ [x]) = <[Z.of_nat (length l) := x]> (id2label l).
Proof. unfold id2label. by rewrite enumerate_snoc, fold_left_app. Qed.

(** [id2label] holds exactly the list, position by position. *)
Lemma id2label_lookup (l : list string) (i : Z) (x : string) :
  id2label l !! i = Some x ↔ 0 ≤ i ∧ l !! Z.to_nat i = Some x.
Proof.
  induction l as [| a l IH] using rev_ind.
  - unfold id2label. simpl. rewrite lookup_empty. split; [done |].
    by intros [_ ?].
  - rewrite id2label_snoc.
    destruct (decide (i = Z.of_nat (length l))) as [-> | Hne].
    + rewrite lookup_insert_eq, Nat2Z.id, lookup_app_r by lia.
      rewrite Nat.sub_diag. simpl. split; [intros [= ->] | intros [_ [= ->]]];
        [split; [lia | done] | done].
    + rewrite lookup_insert_ne by done. rewrite IH. split.
      * intros [Hi Hl]. split; [done |]. by apply lookup_app_l_Some.
      * intros [Hi Hl]. split; [done |].
        apply lookup_app_Some in Hl as [Hl | [Hge Hl]]; [done |].
        apply list_lookup_singleton_Some in Hl as [Hz _]. lia.
Qed.

(** [label2id] maps a label of a list without repetitions to its
    position. *)
Lemma label2id_lookup (l : list string) (x : string) (i : Z) :
  NoDup l →
  (label2id l !! x = Some i ↔ 0 ≤ i ∧ l !! Z.to_nat i = Some x).
Proof.
  induction l as [| a l IH] using rev_ind; intros Hnodup.
  - unfold label2id. simpl. rewrite lookup_empty. split; [done |].
    by intros [_ ?].
  - apply NoDup_app in Hnodup as (Hl & Hnotin & _).
    rewrite label2id_snoc.
    destruct (decide (x = a)) as [-> | Hne].
    + rewrite lookup_insert_eq. split.
      * intros [= <-]. split; [lia |].
        rewrite Nat2Z.id, lookup_app_r, Nat.sub_diag by lia. done.
      * intros [Hi Hlook].
        apply lookup_app_Some in Hlook as [Hlook | [Hge Hlook]].
        -- exfalso. apply (Hnotin a); [| by left].
           apply list_elem_of_lookup. eauto.
        -- apply list_lookup_singleton_Some in Hlook as [Hz _].
           f_equal. lia.
    + rewrite lookup_insert_ne by done. rewrite (IH Hl). split.
      * intros [Hi Hlook]. split; [done |]. by apply lookup_app_l_Some.
      * intros [Hi Hlook]. split; [done |].
        apply lookup_app_Some in Hlook as [Hlook | [Hge Hlook]]; [done |].
        apply list_lookup_singleton_Some in Hlook as [_ Heq]. congruence.
Qed.

(** The two label maps built from the vocabulary of a column invert each
    other, hold one entry per class, and [label2id] gives every label of
    the vocabulary the id [label_to_id] gives it. *)
Theorem label_maps_round_trip (column : list string) (label : string)
  (i : Z) :
  (label2id (label_list column) !! label = Some i ↔
   id2label (label_list column) !! i = Some label) ∧
  (label2id (label_list column) !! label = Some i ↔
   0 ≤ i ∧ label_to_id label (label_list column) = Ok (PyInt i)) ∧
  (is_Some (label2id (label_list column) !! label) ↔ label ∈ column) ∧
  (is_Some (id2label (label_list column) !! i) ↔
   0 ≤ i < num_labels (label_list column)).
Proof.
  pose proof (NoDup_label_list column) as Hnodup.
  assert (Hid : 0 ≤ i ∧ label_list column !! Z.to_nat i = Some label ↔
                0 ≤ i ∧ label_to_id label (label_list column) = Ok (PyInt i)).
  { split; intros [Hi H]; (split; [done |]).
    - pose proof (label_list_id_round_trip_aux column (Z.to_nat i) label H)
        as Hid.
      by rewrite Z2Nat.id in Hid.
    - by apply label_to_id_int_inv. }
  split; [| split; [| split]].
  - by rewrite label2id_lookup, id2label_lookup.
  - by rewrite label2id_lookup.
  - rewrite <- elem_of_label_list. split.
    + intros [k Hk]. apply label2id_lookup in Hk as [_ Hk]; [| done].
      apply list_elem_of_lookup. eauto.
    + intros (k & Hk)%list_elem_of_lookup. exists (Z.of_nat k).
      apply label2id_lookup; [done |]. split; [lia |]. by rewrite Nat2Z.id.
  - unfold num_labels. split.
    + intros [x Hx]. apply id2label_lookup in Hx as [Hi Hx].
      apply lookup_lt_Some in Hx. lia.
    + intros [Hi Hlt].
      destruct (lookup_lt_is_Some_2 (label_list column) (Z.to_nat i))
        as [x Hx]; [lia |].
      exists x. by apply id2label_lookup.
Qed.

End ScriptFacts.

(** ** Evaluation metrics *)

Section MetricsFacts.
Import Metrics.

Lemma mapM_result_ok {A B} (f : A → result B) (l : list A) (k : list B) :
  Forall2 (λ x y, f x = Ok y) l k → mapM f l = Ok k.
Proof.
  induction 1 as [| x y l k Hxy _ IH]; [done |].
  cbn. rewrite Hxy. cbn. by rewrite IH.
Qed.

Lemma argmax_from_spec (rest pre : list Q) (best_i : nat) (best : Q) :
  pre !! best_i = Some best →
  (∀ y, y ∈ pre → (y <= best)%Q) →
  (∀ j y, (j < best_i)%nat → pre !! j = Some y → (y < best)%Q) →
  ∃ m : Q,
    (pre ++ rest) !! argmax_from best_i best (length pre) rest = Some m ∧
    (∀ y, y ∈ pre ++ rest → (y <= m)%Q) ∧
    (∀ j y, (j < argmax_from best_i best (length pre) rest)%nat →
            (pre ++ rest) !! j = Some y → (y < m)%Q).
Proof.
  revert pre best_i best.
  induction rest as [| x rest IH]; intros pre best_i best Hbest Hmax Hfirst.
  - exists best. rewrite app_nil_r. simpl. done.
  - simpl. replace (pre ++ x :: rest) with ((pre ++ [x]) ++ rest)
      by (by rewrite <- app_assoc).
    replace (S (length pre)) with (length (pre ++ [x]))
      by (rewrite length_app; simpl; lia).
    destruct (best ?= x)%Q eqn:Hcmp.
    + apply Qeq_alt in Hcmp. apply IH.
      * by apply lookup_app_l_Some.
      * intros y [Hy | ->%list_elem_of_singleton]%elem_of_app;
          [by apply Hmax | rewrite Hcmp; apply Qle_refl].
      * intros j y Hj Hy. apply (Hfirst j y Hj).
        apply lookup_lt_Some in Hbest.
        by rewrite lookup_app_l in Hy by lia.
    + apply Qlt_alt in Hcmp. apply IH.
      * rewrite lookup_app_r, Nat.sub_diag by lia. done.
      * intros y [Hy | ->%list_elem_of_singleton]%elem_of_app;
          [| apply Qle_refl].
        apply Qlt_le_weak. eapply Qle_lt_trans; [by apply Hmax | done].
      * intros j y Hj Hy. rewrite lookup_app_l in Hy by done.
        eapply Qle_lt_trans; [| exact Hcmp].
        apply Hmax, list_elem_of_lookup. eauto.
    + apply Qgt_alt in Hcmp. apply IH.
      * by apply lookup_app_l_Some.
      * intros y [Hy | ->%list_elem_of_singleton]%elem_of_app;
          [by apply Hmax | by apply Qlt_le_weak].
      * intros j y Hj Hy. apply (Hfirst j y Hj).
        apply lookup_lt_Some in Hbest.
        by rewrite lookup_app_l in Hy by lia.
Qed.

(** The class the metric reads off a row of logits is the position of the
    row's first largest logit: every logit is at most the one at that
    position and every earlier logit is strictly smaller.  A row without
    logits raises. *)
Theorem argmax_row_first_maximum (row : list Q) :
  match argmax_row row with
  | Ok c =>
      ∃ m : Q, row !! c = Some m ∧
               (∀ y, y ∈ row → (y <= m)%Q) ∧
               (∀ j y, (j < c)%nat → row !! j = Some y → (y < m)%Q)
  | Raise e => row = [] ∧ e = ValueError
  end.
Proof.
  destruct row as [| x rest]; [done |]. simpl.
  apply (argmax_from_spec rest [x] 0 x).
  - done.
  - intros y ->%list_elem_of_singleton. apply Qle_refl.
  - intros j y Hj. lia.
Qed.

Lemma argmax_rows_ok (n : nat) (rs : list (list Q)) :
  (0 < n)%nat → Forall (λ row : list Q, length row = n) rs →
  ∃ classes : list nat,
    Forall2 (λ row c, argmax_row row = Ok c) rs classes.
Proof.
  intros Hn. induction 1 as [| row rest Hrow _ (classes & IH)].
  - exists []. constructor.
  - destruct row as [| x row]; [simpl in Hrow; lia |].
    exists (argmax_from 0 x 1 row :: classes). by constructor.
Qed.

Lemma inject_nat_succ (n : nat) :
  (inject_Z (Z.of_nat (S n)) == inject_Z (Z.of_nat n) + 1)%Q.
Proof. rewrite Nat2Z.inj_succ, <- Z.add_1_r, inject_Z_plus. reflexivity. Qed.

Lemma inject_nat_nonneg (n : nat) : (0 <= inject_Z (Z.of_nat n))%Q.
Proof.
  change 0%Q with (inject_Z 0). rewrite <- Zle_Qle. lia.
Qed.

Lemma hit_cases (c : nat) (y : Q) :
  (hit c y = 1%Q ∧ (inject_Z (Z.of_nat c) == y)%Q) ∨
  (hit c y = 0%Q ∧ ¬ (inject_Z (Z.of_nat c) == y)%Q).
Proof.
  unfold hit. destruct (Qeq_bool _ _) eqn:E.
  - left. split; [done |]. by apply Qeq_bool_iff.
  - right. split; [done |]. intros H%Qeq_bool_iff. congruence.
Qed.

(** The sum of the 0/1 entries of a comparison. *)
Lemma hits_sum (classes : list nat) (labels : list Q) :
  length classes = length labels →
  let total := fold_right Qplus 0%Q (zip_with hit classes labels) in
  let n := inject_Z (Z.of_nat (length classes)) in
  (0 <= total)%Q ∧ (total <= n)%Q ∧
  ((total == n)%Q ↔
   Forall2 (λ c y, (inject_Z (Z.of_nat c) == y)%Q) classes labels) ∧
  ((total == 0)%Q ↔
   Forall2 (λ c y, ¬ (inject_Z (Z.of_nat c) == y)%Q) classes labels).
Proof.
  revert labels. induction classes as [| c classes IH]; intros [| y labels] Hlen;
    try discriminate.
  - cbn. split; [apply Qle_refl |]. split; [apply Qle_refl |].
    split; (split; [intros _; constructor | intros _; reflexivity]).
  - injection Hlen as Hlen. specialize (IH labels Hlen).
    cbn zeta in IH. destruct IH as (H0 & Hn & Hall & Hnone).
    cbn [zip_with fold_right length]. cbv zeta.
    pose proof (inject_nat_succ (length classes)) as Hs.
    pose proof (inject_nat_nonneg (length classes)) as Hpos.
    set (total := fold_right Qplus 0%Q (zip_with hit classes labels)) in *.
    set (n := inject_Z (Z.of_nat (length classes))) in *.
    destruct (hit_cases c y) as [[-> Heq] | [-> Hneq]].
    + split; [lra |]. split; [lra |]. split.
      * split.
        -- intros H. constructor; [done |]. apply Hall. lra.
        -- intros H. apply Forall2_cons in H as [_ H]. apply Hall in H. lra.
      * split.
        -- intros H. lra.
        -- intros H. apply Forall2_cons in H as [H _]. done.
    + split; [lra |]. split; [lra |]. split.
      * split.
        -- intros H. lra.
        -- intros H. apply Forall2_cons in H as [H _]. done.
      * split.
        -- intros H. constructor; [done |]. apply Hnone. lra.
        -- intros H. apply Forall2_cons in H as [_ H]. apply Hnone in H. lra.
Qed.

(** The accuracy of a well-formed array of predictions, one row of at
    least one logit per label: the metric is returned under the key
    accuracy; it is NaN when there is no row, and otherwise a number
    between 0 and 1 that is 1 exactly when the class of every row is its
    label and 0 exactly when the class of no row is. *)
Theorem compute_metrics_accuracy (a : Array2) (labels : list Q)
  (Hshape : well_formed a)
  (Hcols : (0 < ncols a)%nat)
  (Hlabels : length labels = nrows a) :
  ∃ (classes : list nat) (m : metric),
    Forall2 (λ row c, argmax_row row = Ok c) (rows a) classes ∧
    compute_metrics is_regression (MkEvalPrediction (PredArray a) labels)
    = Ok ("accuracy", m) ∧
    (nrows a = 0%nat → m = NaN) ∧
    ((0 < nrows a)%nat →
     ∃ acc : Q,
       m = Value acc ∧ (0 <= acc)%Q ∧ (acc <= 1)%Q ∧
       ((acc == 1)%Q ↔
        Forall2 (λ c y, (inject_Z (Z.of_nat c) == y)%Q) classes labels) ∧
       ((acc == 0)%Q ↔
        Forall2 (λ c y, ¬ (inject_Z (Z.of_nat c) == y)%Q) classes labels)).
Proof.
  destruct Hshape as [Hrows Hall].
  destruct (argmax_rows_ok (ncols a) (rows a) Hcols Hall) as (classes & Hcls).
  pose proof (Forall2_length _ _ _ Hcls) as Hlen.
  exists classes, (mean (zip_with hit classes labels)).
  split; [done |]. split; [| split].
  - unfold compute_metrics, is_regression, argmax_axis1. cbn.
    destruct (Nat.eqb_spec (ncols a) 0) as [? | _]; [lia |].
    rewrite (mapM_result_ok _ _ _ Hcls). cbn. unfold broadcast.
    destruct (Nat.eqb_spec (length classes) (length labels)) as [_ | ?];
      [done | lia].
  - intros Hzero. destruct classes; [done | simpl in *; lia].
  - intros Hpos.
    destruct (hits_sum classes labels) as (H0 & Hn & Hone & Hnone); [lia |].
    cbn zeta in *.
    assert (length (zip_with hit classes labels) = length classes) as Hzl
      by (rewrite length_zip_with; lia).
    set (hits := zip_with hit classes labels) in *.
    assert (0 < inject_Z (Z.of_nat (length classes)))%Q as Hnpos.
    { change 0%Q with (inject_Z 0). rewrite <- Zlt_Qlt. lia. }
    exists (fold_right Qplus 0%Q hits / inject_Z (Z.of_nat (length classes)))%Q.
    split.
    { unfold mean. rewrite Hzl. destruct hits; [simpl in *; lia | done]. }
    set (total := fold_right Qplus 0%Q hits) in *.
    set (n := inject_Z (Z.of_nat (length classes))) in *.
    assert (Hdiv : (total / n * n == total)%Q) by (field; lra).
    assert (Hacc0 : (0 <= total / n)%Q).
    { apply Qle_shift_div_l; lra. }
    assert (Hacc1 : (total / n <= 1)%Q).
    { apply Qle_shift_div_r; lra. }
    split; [done |]. split; [done |]. split.
    + rewrite <- Hone. split; intros H.
      * rewrite <- Hdiv, H. lra.
      * rewrite H. field. lra.
    + rewrite <- Hnone. split; intros H.
      * rewrite <- Hdiv, H. lra.
      * rewrite H. field. lra.
Qed.

Lemma squares_sum (xs ys : list Q) :
  length xs = length ys →
  let total :=
    fold_right Qplus 0%Q (map (λ d, (d * d)%Q) (zip_with Qminus xs ys)) in
  (0 <= total)%Q ∧ ((total == 0)%Q ↔ Forall2 Qeq xs ys).
Proof.
  revert ys. induction xs as [| x xs IH]; intros [| y ys] Hlen;
    try discriminate.
  - cbn. split; [apply Qle_refl |].
    split; [intros _; constructor | intros _; reflexivity].
  - injection Hlen as Hlen. destruct (IH ys Hlen) as [H0 Hzero].
    cbn [zip_with map fold_right]. cbv zeta in *.
    set (total :=
           fold_right Qplus 0%Q (map (λ d, (d * d)%Q) (zip_with Qminus xs ys)))
      in *.
    assert (0 <= (x - y) * (x - y))%Q as Hsq.
    { generalize (x - y)%Q. intros [dn dd]. unfold Qle. simpl. nia. }
    split; [lra |]. split.
    + intros H. assert ((x - y) * (x - y) == 0)%Q as Hxy by lra.
      constructor; [| apply Hzero; lra].
      apply Qmult_integral in Hxy. destruct Hxy; lra.
    + intros H. apply Forall2_cons in H as [Hxy H]. apply Hzero in H.
      rewrite Hxy. lra.
Qed.

(** The mean squared error of a well-formed array of one prediction per
    row against as many labels (at least one): the metric is returned
    under the key mse, it is never negative, and it is 0 exactly when
    every prediction equals its label. *)
Theorem compute_metrics_mse (a : Array2) (labels : list Q)
  (Hshape : well_formed a)
  (Hcols : ncols a = 1%nat)
  (Hlabels : length labels = nrows a)
  (Hrows : (0 < nrows a)%nat) :
  ∃ v : Q,
    compute_metrics true (MkEvalPrediction (PredArray a) labels)
    = Ok ("mse", Value v) ∧
    (0 <= v)%Q ∧
    ((v == 0)%Q ↔ Forall2 Qeq (concat (rows a)) labels).
Proof.
  destruct Hshape as [Hlen Hall].
  pose proof (length_concat_rows _ _ Hall) as Hcat.
  rewrite Hcols, Nat.mul_1_r, Hlen in Hcat.
  destruct (squares_sum (concat (rows a)) labels) as [H0 Hzero]; [lia |].
  cbv zeta in *.
  set (sq := map (λ d, (d * d)%Q) (zip_with Qminus (concat (rows a)) labels))
    in *.
  assert (length sq = nrows a) as Hsq.
  { unfold sq. rewrite length_map, length_zip_with. lia. }
  assert (0 < inject_Z (Z.of_nat (nrows a)))%Q as Hnpos.
  { change 0%Q with (inject_Z 0). rewrite <- Zlt_Qlt. lia. }
  exists (fold_right Qplus 0%Q sq / inject_Z (Z.of_nat (nrows a)))%Q.
  split; [| split].
  - unfold compute_metrics, squeeze_sub. cbn. rewrite Hcols. cbn.
    unfold broadcast.
    destruct (Nat.eqb_spec (length (concat (rows a))) (length labels))
      as [_ | ?]; [| lia].
    cbn. fold sq. unfold mean. rewrite Hsq.
    destruct sq; [simpl in *; lia | done].
  - apply Qle_shift_div_l; lra.
  - rewrite <- Hzero.
    set (total := fold_right Qplus 0%Q sq) in *.
    set (n := inject_Z (Z.of_nat (nrows a))) in *.
    assert (Hdiv : (total / n * n == total)%Q) by (field; lra).
    split; intros H.
    + rewrite <- Hdiv, H. lra.
    + rewrite H. field. lra.
Qed.

Lemma compute_metrics_accuracy_witness :
  ∃ (classes : list nat) (m : metric),
    Forall2 (λ row c, argmax_row row = Ok c) (rows example_logits) classes ∧
    compute_metrics is_regression
      (MkEvalPrediction (PredArray example_logits) [1; 2]%Q)
    = Ok ("accuracy", m).
Proof.
  destruct (compute_metrics_accuracy example_logits [1; 2]%Q)
    as (classes & m & Hcls & Hmetric & _).
  - split; [reflexivity | by repeat constructor].
  - simpl. lia.
  - reflexivity.
  - exists classes, m. split; [exact Hcls | exact Hmetric].
Defined.

Lemma compute_metrics_mse_witness :
  ∃ v : Q,
    compute_metrics true
      (MkEvalPrediction (PredArray example_outputs_regression) [1; 2]%Q)
    = Ok ("mse", Value v) ∧ (0 <= v)%Q.
Proof.
  destruct (compute_metrics_mse example_outputs_regression [1; 2]%Q)
    as (v & Hmetric & Hpos & _).
  - split; [reflexivity | by repeat constructor].
  - reflexivity.
  - reflexivity.
  - simpl. lia.
  - exists v. split; [exact Hmetric | exact Hpos].
Defined.

End MetricsFacts.

(** ** The training step *)

Section TrainerFacts.
Import Trainer.

Variable Inputs : Type.
Variable prepare_inputs : Inputs → Inputs.
Variable compute_loss : bool → Inputs → result Q.

Local Abbreviation step := (training_step Inputs prepare_inputs compute_loss).

(** A step back-propagates exactly once when the loss is computed, and
    what it back-propagates is the loss it returns; the mechanism is the
    gradient scaler under native mixed precision, else apex, else
    deepspeed, else the plain backward pass.  When the loss computation
    raises, the step raises the same error and back-propagates nothing.
    Without gradient accumulation the returned loss is the computed one. *)
Theorem training_step_backward (self : CTCTrainer) (inputs : Inputs) :
  match compute_loss (use_amp self) (prepare_inputs inputs) with
  | Ok raw =>
      ∃ (loss : Q) (how : backward_kind),
        step self inputs
        = (Ok loss, [ModelTrain; PrepareInputs; ComputeLoss (use_amp self);
                     Backward how loss]) ∧
        backward_losses (snd (step self inputs)) = [loss] ∧
        (how = ScalerBackward ↔ use_amp self = true) ∧
        (how = ApexBackward ↔ use_amp self = false ∧ use_apex self = true) ∧
        (how = PlainBackward ↔
         use_amp self = false ∧ use_apex self = false ∧
         deepspeed self = false) ∧
        (gradient_accumulation_steps self ≤ 1 → loss = raw)
  | Raise e =>
      fst (step self inputs) = Raise e ∧
      backward_losses (snd (step self inputs)) = []
  end.
Proof.
  unfold training_step.
  destruct (compute_loss _ _) as [raw | e]; [| done].
  eexists _, _. split; [reflexivity |]. split; [reflexivity |].
  destruct (use_amp self), (use_apex self), (deepspeed self); cbn;
    (repeat split; try done; try (by intros [? ?]); try (by intros (? & ? & ?));
     try (intros Hle; by destruct (Z.ltb_spec 1 (gradient_accumulation_steps self));
          [lia |])).
Qed.

Lemma step_scaled (self : CTCTrainer) (inputs : Inputs) (raw : Q) :
  1 < gradient_accumulation_steps self →
  compute_loss (use_amp self) (prepare_inputs inputs) = Ok raw →
  fst (step self inputs)
  = Ok (raw / inject_Z (gradient_accumulation_steps self))%Q ∧
  backward_losses (snd (step self inputs))
  = [(raw / inject_Z (gradient_accumulation_steps self))%Q].
Proof.
  intros Hsteps Hraw. unfold training_step. rewrite Hraw.
  destruct (Z.ltb_spec 1 (gradient_accumulation_steps self)); [done | lia].
Qed.

(** Gradient accumulation averages: over a window of as many steps as
    [gradient_accumulation_steps] (more than one), every step returns its
    loss divided by the number of steps, and the losses back-propagated
    over the window add up to the mean of the computed losses. *)
Theorem training_steps_accumulate (self : CTCTrainer)
  (window : list Inputs) (raws : list Q)
  (Hsteps : 1 < gradient_accumulation_steps self)
  (Hwindow : Z.of_nat (length window) = gradient_accumulation_steps self)
  (Hraws : Forall2 (λ inputs raw,
                      compute_loss (use_amp self) (prepare_inputs inputs)
                      = Ok raw) window raws) :
  Forall2 (λ inputs raw,
             fst (step self inputs)
             = Ok (raw / inject_Z (gradient_accumulation_steps self))%Q)
    window raws ∧
  (fold_right Qplus 0
     (backward_losses (concat (map (λ inputs, snd (step self inputs)) window)))
   == fold_right Qplus 0 raws / inject_Z (Z.of_nat (length raws)))%Q.
Proof.
  assert (0 < inject_Z (gradient_accumulation_steps self))%Q as Hk.
  { change 0%Q with (inject_Z 0). rewrite <- Zlt_Qlt. lia. }
  rewrite <- (Forall2_length _ _ _ Hraws), Hwindow. clear Hwindow.
  set (k := inject_Z (gradient_accumulation_steps self)) in *.
  induction Hraws as [| inputs raw window raws Hraw _ [IH1 IH2]].
  - split; [constructor |]. cbn. field. lra.
  - destruct (step_scaled self inputs raw Hsteps Hraw) as [Hfst Hlog].
    split; [by constructor |].
    cbn [map concat]. unfold backward_losses in *.
    rewrite omap_app, Hlog. cbn [app fold_right]. rewrite IH2.
    fold k. field. lra.
Qed.

End TrainerFacts.

Lemma training_steps_accumulate_witness :
  (fold_right Qplus 0
     (Trainer.backward_losses
        (concat (map (λ inputs,
                        snd (Trainer.training_step Q (λ x, x)
                               example_compute_loss example_trainer inputs))
                   [1; 3]%Q)))
   == fold_right Qplus 0 [1; 3] / inject_Z (Z.of_nat (length [1; 3]%Q)))%Q.
Proof.
  refine (proj2 (training_steps_accumulate Q (λ x, x) example_compute_loss
    example_trainer [1; 3]%Q [1; 3]%Q _ eq_refl _)).
  - reflexivity.
  - by repeat constructor.
Defined.

(** ** The classification head *)

Section HeadFacts.
Import Torch Head.

Lemma linear_rows (l : Linear) (x : Tensor2) :
  linear_shaped l →
  Forall (λ row : list Q, length row = in_features l) x →
  ∃ y : Tensor2,
    linear l x = Ok y ∧ length y = length x ∧
    Forall (λ row : list Q, length row = out_features l) y.
Proof.
  intros (Hw & _ & Hb). induction 1 as [| row rest Hrow _ (y & Hy & Hlen & Hall)].
  - exists []. by repeat split.
  - exists (zip_with Qplus (map (dot row) (weight l)) (bias l) :: y).
    split; [| split].
    + unfold linear in *. cbn -[linear_row].
      replace (linear_row l row)
        with (Ok (zip_with Qplus (map (dot row) (weight l)) (bias l)))
        by (unfold linear_row; by rewrite Hrow, Nat.eqb_refl).
      cbn -[linear_row]. by rewrite Hy.
    + simpl. by rewrite Hlen.
    + constructor; [| done]. rewrite length_zip_with, length_map. lia.
Qed.

Lemma linear_bad_row (l : Linear) (x : Tensor2) :
  Exists (λ row : list Q, length row ≠ in_features l) x →
  linear l x = Raise RuntimeError.
Proof.
  unfold linear. induction 1 as [row rest Hrow | row rest _ IH].
  - cbn -[linear_row]. unfold linear_row.
    by destruct (Nat.eqb_spec (length row) (in_features l)).
  - cbn -[linear_row]. destruct (linear_row l row) as [y | e] eqn:Hy.
    + cbn -[linear_row]. by rewrite IH.
    + unfold linear_row in Hy.
      destruct (Nat.eqb (length row) (in_features l)); [done |].
      by injection Hy as <-.
Qed.

Variable dropout1 dropout2 : Tensor2 → Tensor2.
Variable tanh : Q → Q.

(** On features of the hidden width the head returns one row of logits
    per utterance, each with one logit per class, so the view of the
    logits as rows of [num_labels] elements in the loss computation is the
    logits themselves. *)
Theorem head_forward_shape (self : Wav2Vec2ClassificationHead)
  (features : Tensor2) (hidden_size num_labels : nat)
  (Hdense : linear_shaped (dense self))
  (Hout : linear_shaped (out_proj self))
  (Hdense_in : in_features (dense self) = hidden_size)
  (Hdense_out : out_features (dense self) = hidden_size)
  (Hout_in : in_features (out_proj self) = hidden_size)
  (Hout_out : out_features (out_proj self) = num_labels)
  (Hdrop1 : shape_preserving dropout1)
  (Hdrop2 : shape_preserving dropout2)
  (Hfeatures : Forall (λ row : list Q, length row = hidden_size) features) :
  ∃ logits : Tensor2,
    forward dropout1 dropout2 tanh self features = Ok logits ∧
    length logits = length features ∧
    Forall (λ row : list Q, length row = num_labels) logits ∧
    ((0 < num_labels)%nat →
     view_rows logits (Z.of_nat num_labels) = Ok logits).
Proof.
  destruct (Hdrop1 features) as [Hlen1 Hwidth1].
  destruct (linear_rows (dense self) (dropout1 features) Hdense)
    as (x & Hx & Hxlen & Hxall).
  { rewrite Hdense_in. by apply Hwidth1. }
  destruct (Hdrop2 (map (map tanh) x)) as [Hlen2 Hwidth2].
  destruct (linear_rows (out_proj self) (dropout2 (map (map tanh) x)) Hout)
    as (logits & Hlogits & Hllen & Hlall).
  { rewrite Hout_in. apply Hwidth2. rewrite Forall_map.
    eapply Forall_impl; [exact Hxall |]. simpl. intros row Hrow.
    rewrite length_map. congruence. }
  exists logits. split; [| split; [| split]].
  - unfold forward. cbv zeta. rewrite Hx. cbn. exact Hlogits.
  - rewrite Hllen, Hlen2, length_map, Hxlen, Hlen1. done.
  - by rewrite <- Hout_out.
  - intros Hpos. apply view_rows_same_width_aux; [lia |].
    rewrite Nat2Z.id. by rewrite <- Hout_out.
Qed.

(** Features of another width than the first linear layer expects make the
    head raise. *)
Theorem head_forward_bad_width (self : Wav2Vec2ClassificationHead)
  (features : Tensor2) (width : nat)
  (Hdrop1 : shape_preserving dropout1)
  (Hfeatures : features ≠ [])
  (Hwidth : Forall (λ row : list Q, length row = width) features)
  (Hbad : width ≠ in_features (dense self)) :
  forward dropout1 dropout2 tanh self features = Raise RuntimeError.
Proof.
  unfold forward. cbv zeta.
  destruct (Hdrop1 features) as [Hlen Hkeep]. specialize (Hkeep _ Hwidth).
  rewrite linear_bad_row; [done |].
  destruct (dropout1 features) as [| row rest].
  - destruct features; [done | simpl in Hlen; lia].
  - left. apply Forall_cons in Hkeep as [Hrow _]. congruence.
Qed.

End HeadFacts.

Lemma shape_preserving_id : shape_preserving (λ x, x).
Proof. intros x. split; [done |]. by intros w H. Qed.

Lemma head_forward_shape_witness :
  ∃ logits : Torch.Tensor2,
    Head.forward (λ x, x) (λ x, x) (λ q, q) example_head [[1; 2]%Q]
    = Ok logits ∧
    length logits = length [[1; 2]%Q] ∧
    Forall (λ row : list Q, length row = 3%nat) logits ∧
    ((0 < 3)%nat → Torch.view_rows logits (Z.of_nat 3) = Ok logits).
Proof.
  apply (head_forward_shape (λ x, x) (λ x, x) (λ q, q) example_head
           [[1; 2]%Q] 2 3).
  - split; [reflexivity |]. split; [by repeat constructor | reflexivity].
  - split; [reflexivity |]. split; [by repeat constructor | reflexivity].
  - reflexivity.
  - reflexivity.
  - reflexivity.
  - reflexivity.
  - apply shape_preserving_id.
  - apply shape_preserving_id.
  - by repeat constructor.
Defined.

Lemma head_forward_bad_width_witness :
  Head.forward (λ x, x) (λ x, x) (λ q, q) example_head [[1; 2; 3]%Q]
  = Raise RuntimeError.
Proof.
  apply (head_forward_bad_width (λ x, x) (λ x, x) (λ q, q) example_head
           [[1; 2; 3]%Q] 3).
  - apply shape_preserving_id.
  - discriminate.
  - by repeat constructor.
  - discriminate.
Defined.

(** ** Pooling and the order of the frames *)

Section PoolingOrderFacts.
Import Torch Model.








End PoolingOrderFacts.
